(** * Signaling server and negotiation engine of the video-call application

    A shallow embedding of
    - [server/roomManager.js]: the room registry,
    - [server/index.js]: the Socket.IO event handlers,
    - the [useSocket] and [useWebRTC] hooks of the client,
    together with the properties of the registry, of the relay and of the
    negotiation engine.

    Conventions of the embedding.
    - A JavaScript [Map] is an insertion-ordered association list with unique
      keys ([JsMap]): [set] on a present key overwrites in place, on an absent
      key appends; iteration ([values], [for..of]) follows list order.
    - Module-level mutable state ([rooms]) and per-connection state
      ([socket.data]) are passed explicitly.
    - A payload field that may be missing is an [option string]; [None] is
      [undefined]. JavaScript truthiness of such a field is [truthy].
    - [new Date()] / [Date.now()] are a clock reading supplied by the caller
      (milliseconds, in [Z]). *)

From stdpp Require Import base numbers list strings gmap.

Local Open Scope string_scope.
Local Open Scope list_scope.

(** ** JavaScript [Map] with string keys *)

Module JsMap.
Section JsMap.
Context {V : Type}.

Local Abbreviation t := (list (string * V)).

Definition empty : t := [].

Fixpoint get (k : string) (m : t) : option V :=
  match m with
  | [] => None
  | (k', v) :: m' => if decide (k = k') then Some v else get k m'
  end.

Definition has (k : string) (m : t) : bool :=
  match get k m with Some _ => true | None => false end.

(** [m.set(k, v)]: a present key keeps its position. *)
Fixpoint set (k : string) (v : V) (m : t) : t :=
  match m with
  | [] => [(k, v)]
  | (k', v') :: m' =>
      if decide (k = k') then (k, v) :: m' else (k', v') :: set k v m'
  end.

Definition delete (k : string) (m : t) : t :=
  filter (λ kv, kv.1 ≠ k) m.

Definition size (m : t) : nat := length m.

Definition keys (m : t) : list string := m.*1.

Definition values (m : t) : list V := m.*2.

(** Keys of a [Map] are unique. *)
Definition wf (m : t) : Prop := NoDup (keys m).
End JsMap.
Abbreviation t V := (list (string * V)) (only parsing).
End JsMap.

(** JavaScript truthiness of a possibly missing string: [undefined] and the
    empty string are falsy. *)
Definition truthy (v : option string) : bool :=
  match v with
  | None => false
  | Some s => negb (bool_decide (s = ""))
  end.

(** [v || null] for a possibly missing string. *)
Definition orNull (v : option string) : option string :=
  if truthy v then v else None.

(** ** server/roomManager.js *)

Module RoomManager.

Record Participant := mkParticipant {
  odId : string;
  name : string;
  socketId : string
}.

(** What [getParticipantsList] puts on the wire for one participant. *)
Record ParticipantInfo := mkInfo {
  info_odId : string;
  info_name : string
}.

Record Room := mkRoom {
  id : string;
  participants : JsMap.t Participant;
  createdAt : Z
}.

(** The module-level [rooms] map. *)
Abbreviation Rooms := (JsMap.t Room).

Definition rooms0 : Rooms := JsMap.empty.

Definition MAX_PARTICIPANTS : nat := 4.

(** The result object [{ success, error?, participants? }]. *)
Record AddResult := mkAddResult {
  success : bool;
  error : option string;
  result_participants : option (list ParticipantInfo)
}.

Definition with_participants (room : Room) (ps : JsMap.t Participant) : Room :=
  {| id := id room; participants := ps; createdAt := createdAt room |}.

(** Returns the room object stored under [roomId] and the updated map. *)
Definition getOrCreateRoom (roomId : string) (now : Z) (rooms : Rooms)
  : Room * Rooms :=
  match JsMap.get roomId rooms with
  | Some room => (room, rooms)
  | None =>
      let room := {| id := roomId; participants := JsMap.empty;
                     createdAt := now |} in
      (room, JsMap.set roomId room rooms)
  end.

Definition roomExists (roomId : string) (rooms : Rooms) : bool :=
  JsMap.has roomId rooms.

Definition getParticipantsList (roomId : string) (rooms : Rooms)
  : list ParticipantInfo :=
  match JsMap.get roomId rooms with
  | None => []
  | Some room =>
      (λ p, {| info_odId := odId p; info_name := name p |})
        <$> JsMap.values (participants room)
  end.

(** The room object is mutated in place; in the model the updated room is
    written back under its key, which keeps its position in [rooms]. *)
Definition addParticipant (roomId : string) (participant : Participant)
    (now : Z) (rooms : Rooms) : AddResult * Rooms :=
  let '(room, rooms1) := getOrCreateRoom roomId now rooms in
  if bool_decide (MAX_PARTICIPANTS ≤ JsMap.size (participants room))%nat then
    ({| success := false; error := Some "Room is full";
        result_participants := None |}, rooms1)
  else
    let room' :=
      if JsMap.has (odId participant) (participants room) then
        with_participants room
          (JsMap.set (odId participant) participant (participants room))
      else
        with_participants room
          (JsMap.set (odId participant) participant (participants room)) in
    let rooms2 := JsMap.set roomId room' rooms1 in
    ({| success := true; error := None;
        result_participants := Some (getParticipantsList roomId rooms2) |},
     rooms2).

Definition removeParticipant (roomId odId : string) (rooms : Rooms) : Rooms :=
  match JsMap.get roomId rooms with
  | None => rooms
  | Some room =>
      let room' :=
        with_participants room (JsMap.delete odId (participants room)) in
      let rooms1 := JsMap.set roomId room' rooms in
      if bool_decide (JsMap.size (participants room') = 0) then
        JsMap.delete roomId rooms1
      else rooms1
  end.

(** The inner loop of [removeParticipantBySocketId]: the first participant of
    one room whose connection handle is [sid]. *)
Fixpoint findParticipantBySocketId (sid : string)
    (ps : JsMap.t Participant) : option string :=
  match ps with
  | [] => None
  | (odId, participant) :: ps' =>
      if decide (socketId participant = sid) then Some odId
      else findParticipantBySocketId sid ps'
  end.

(** The outer loop: rooms in iteration order. *)
Fixpoint findBySocketId (sid : string) (rooms : Rooms)
  : option (string * string) :=
  match rooms with
  | [] => None
  | (roomId, room) :: rooms' =>
      match findParticipantBySocketId sid (participants room) with
      | Some odId => Some (roomId, odId)
      | None => findBySocketId sid rooms'
      end
  end.

Definition removeParticipantBySocketId (sid : string) (rooms : Rooms)
  : option (string * string) * Rooms :=
  match findBySocketId sid rooms with
  | Some (roomId, odId) => (Some (roomId, odId), removeParticipant roomId odId rooms)
  | None => (None, rooms)
  end.

Definition getParticipantSocketId (roomId odId : string) (rooms : Rooms)
  : option string :=
  match JsMap.get roomId rooms with
  | None => None
  | Some room => orNull (socketId <$> JsMap.get odId (participants room))
  end.

Record Stats := mkStats {
  roomCount : nat;
  totalParticipants : nat
}.

Definition getStats (rooms : Rooms) : Stats :=
  {| roomCount := JsMap.size rooms;
     totalParticipants :=
       foldl (λ total room, total + JsMap.size (participants room)) 0
             (JsMap.values rooms) |}.

Definition MAX_AGE : Z := 60 * 60 * 1000.

(** Deleting the entry under iteration does not disturb a [Map] iteration, so
    the sweep is a filter. *)
Definition cleanupEmptyRooms (now : Z) (rooms : Rooms) : Rooms :=
  filter (λ kv, ¬ (JsMap.size (participants kv.2) = 0
                   ∧ (now - createdAt kv.2 > MAX_AGE)%Z)) rooms.

End RoomManager.

(** ** server/index.js: the Socket.IO event handlers *)

Module Server.
Import RoomManager.

(** [socket.data], as the join handler fills it. *)
Record SocketData := mkData {
  data_roomId : option string;
  data_odId : option string
}.

(** One connection: its transport id, its [data], and the Socket.IO rooms it
    has joined with [socket.join]. *)
Record Socket := mkSocket {
  socket_id : string;
  data : SocketData;
  joined : list string
}.

(** The three ways the handlers address a message. *)
Inductive Target :=
| SocketEmit (sid : string)            (* socket.emit: the connection itself *)
| SocketTo (roomId sender : string)    (* socket.to(roomId): room, sender excluded *)
| IoTo (room : string).                (* io.to(room) *)

Inductive ServerEvent :=
| room_error (message : string)
| room_full
| room_joined (participants : list ParticipantInfo)
| user_joined (odId name : string)
| user_left (odId : string)
| offer (fromUserId offer : option string)
| answer (fromUserId answer : option string)
| ice_candidate (fromUserId candidate : option string).

Record Emit := mkEmit { target : Target; event : ServerEvent }.

(** The payload objects, as the listeners destructure them. A field is a
    string or is missing ([None]); the listeners are not modelled on fields
    of another type. What a listener does when it is called without a
    payload object is [Arg] and the [_listener] definitions below. *)
Record JoinRoom := mkJoinRoom {
  join_roomId : option string;
  join_userId : option string;
  join_name : option string
}.

Record LeaveRoom := mkLeaveRoom {
  leave_roomId : option string;
  leave_userId : option string
}.

(** [{ targetUserId, offer | answer | candidate, fromUserId }] *)
Record Signal := mkSignal {
  targetUserId : option string;
  body : option string;
  fromUserId : option string
}.

(** [socket.join(roomId)]: the rooms of a connection are a set. *)
Definition socket_join (roomId : string) (rooms : list string) : list string :=
  if decide (roomId ∈ rooms) then rooms else rooms ++ [roomId].

(** [name || `User ${userId.substring(0, 4)}`]. A string is its sequence of
    code units; [String.substring] counts them as JavaScript does for ids
    written in ASCII. *)
Definition displayName (name : option string) (userId : string) : string :=
  if truthy name then default "" name
  else "User " +:+ String.substring 0 4 userId.

Definition on_join_room (payload : JoinRoom) (now : Z)
    (socket : Socket) (rooms : Rooms) : Socket * Rooms * list Emit :=
  if negb (truthy (join_roomId payload)) || negb (truthy (join_userId payload))
  then
    (socket, rooms,
     [mkEmit (SocketEmit (socket_id socket))
             (room_error "Invalid room ID or user ID")])
  else
    let roomId := default "" (join_roomId payload) in
    let userId := default "" (join_userId payload) in
    let '(result, rooms') :=
      addParticipant roomId
        {| odId := userId;
           name := displayName (join_name payload) userId;
           socketId := socket_id socket |} now rooms in
    if negb (success result) then
      (socket, rooms', [mkEmit (SocketEmit (socket_id socket)) room_full])
    else
      let socket' :=
        {| socket_id := socket_id socket;
           data := {| data_roomId := Some roomId; data_odId := Some userId |};
           joined := socket_join roomId (joined socket) |} in
      (socket', rooms',
       [mkEmit (SocketEmit (socket_id socket))
               (room_joined (default [] (result_participants result)));
        mkEmit (SocketTo roomId (socket_id socket))
               (user_joined userId (displayName (join_name payload) userId))]).

Definition on_leave_room (payload : LeaveRoom)
    (socket : Socket) (rooms : Rooms) : Socket * Rooms * list Emit :=
  if negb (truthy (leave_roomId payload)) || negb (truthy (leave_userId payload))
  then (socket, rooms, [])
  else
    let roomId := default "" (leave_roomId payload) in
    let userId := default "" (leave_userId payload) in
    let socket' :=
      {| socket_id := socket_id socket; data := data socket;
         joined := filter (λ r, r ≠ roomId) (joined socket) |} in
    (socket', removeParticipant roomId userId rooms,
     [mkEmit (SocketTo roomId (socket_id socket)) (user_left userId)]).

(** The common shape of the [offer], [answer] and [ice-candidate] handlers;
    [mk] builds the relayed event from [fromUserId] and the body. A missing
    [targetUserId] finds no participant. *)
Definition relay (mk : option string → option string → ServerEvent)
    (payload : Signal) (socket : Socket) (rooms : Rooms) : list Emit :=
  if negb (truthy (data_roomId (data socket))) then []
  else
    let roomId := default "" (data_roomId (data socket)) in
    let targetSocketId :=
      match targetUserId payload with
      | Some target => getParticipantSocketId roomId target rooms
      | None => None
      end in
    match targetSocketId with
    | Some sid => [mkEmit (IoTo sid) (mk (fromUserId payload) (body payload))]
    | None => []
    end.

Definition on_offer := relay offer.
Definition on_answer := relay answer.
Definition on_ice_candidate := relay ice_candidate.

Definition on_disconnect (socket : Socket) (rooms : Rooms)
  : Rooms * list Emit :=
  match removeParticipantBySocketId (socket_id socket) rooms with
  | (Some (roomId, odId), rooms') =>
      (rooms', [mkEmit (SocketTo roomId (socket_id socket)) (user_left odId)])
  | (None, rooms') => (rooms', [])
  end.

(** What it means for a relay handler to forward [fromUserId] as the client
    sent it: at most one message is emitted; it is addressed with [io.to] to
    the socket id stored for the target under the room id kept in the
    sender's [socket.data], and it carries the client's [fromUserId] and
    body; the identity registered for the sender is not consulted. The
    statement is about the message emitted, not about which connections sit
    in the Socket.IO room it is addressed to. *)
Definition forwardsVerbatim
    (handler : Signal → Socket → Rooms → list Emit)
    (mk : option string → option string → ServerEvent) : Prop :=
  ∀ payload socket rooms,
    (length (handler payload socket rooms) ≤ 1)%nat
    ∧ (∀ e, e ∈ handler payload socket rooms →
         ∃ r t sid,
           data_roomId (data socket) = Some r
           ∧ targetUserId payload = Some t
           ∧ getParticipantSocketId r t rooms = Some sid
           ∧ e = mkEmit (IoTo sid) (mk (fromUserId payload) (body payload)))
    ∧ (∀ registered,
         handler payload
           {| socket_id := socket_id socket;
              data := {| data_roomId := data_roomId (data socket);
                         data_odId := registered |};
              joined := joined socket |} rooms
         = handler payload socket rooms).

(** *** The listeners as Socket.IO calls them

    Every listener destructures its argument in its parameter list
    ([({ roomId, userId, name }) => ...]), before any test of its own. Called
    with a payload object it runs the handler above; called with nothing
    ([undefined], or [null]) the destructuring throws a [TypeError], which no
    handler catches. *)

Inductive Arg (P : Type) :=
| no_payload
| payload_object (p : P).
Arguments no_payload {P}.
Arguments payload_object {P} p.

Inductive Completion (A : Type) :=
| returned (a : A)
| threw_TypeError.
Arguments returned {A} a.
Arguments threw_TypeError {A}.

Definition join_room_listener (arg : Arg JoinRoom) (now : Z)
    (socket : Socket) (rooms : Rooms)
  : Completion (Socket * Rooms * list Emit) :=
  match arg with
  | no_payload => threw_TypeError
  | payload_object payload => returned (on_join_room payload now socket rooms)
  end.

Definition leave_room_listener (arg : Arg LeaveRoom)
    (socket : Socket) (rooms : Rooms)
  : Completion (Socket * Rooms * list Emit) :=
  match arg with
  | no_payload => threw_TypeError
  | payload_object payload => returned (on_leave_room payload socket rooms)
  end.

Definition signal_listener
    (mk : option string → option string → ServerEvent) (arg : Arg Signal)
    (socket : Socket) (rooms : Rooms) : Completion (list Emit) :=
  match arg with
  | no_payload => threw_TypeError
  | payload_object payload => returned (relay mk payload socket rooms)
  end.

Definition offer_listener := signal_listener offer.
Definition answer_listener := signal_listener answer.
Definition ice_candidate_listener := signal_listener ice_candidate.

End Server.

(** ** Client: the [useSocket] and [useWebRTC] hooks

    The two hooks of one participant are one engine. Every handler runs to
    completion before the next event is taken. An [RTCPeerConnection] is
    opaque to the hooks: the model keeps the identity of the object and the
    sequence of methods the hooks called on it; whether the browser accepts a
    call is given by a [WebRTC] record. *)

Module Client.
Import RoomManager.

Inductive SdpType := sdp_offer | sdp_answer.

Inductive RtcCall :=
| addTrack (track : string)
| rtc_createOffer
| rtc_createAnswer
| setLocalDescription (type : SdpType) (sdp : string)
| setRemoteDescription (type : SdpType) (sdp : string)
| addIceCandidate (candidate : string)
| close.

Record RTCPeerConnection := mkPc {
  pc_id : nat;
  pc_calls : list RtcCall
}.

(** The browser: the session description a [createOffer] / [createAnswer]
    resolves to ([None]: the promise rejects), and whether a call that
    returns nothing succeeds. *)
Record WebRTC := mkWebRTC {
  createOffer_result : RTCPeerConnection → option string;
  createAnswer_result : RTCPeerConnection → option string;
  accepts : RTCPeerConnection → RtcCall → bool
}.

(** Messages the client emits on its socket. *)
Inductive ClientEvent :=
| join_room (roomId userId : string)
| leave_room (roomId userId : string)
| offer (targetUserId offer fromUserId : string)
| answer (targetUserId answer fromUserId : string)
| ice_candidate (targetUserId candidate fromUserId : string).

Record Engine := mkEngine {
  roomId : string;
  userId : string;
  isConnected : bool;
  error : option string;
  participants : list ParticipantInfo;
  localStream : option (list string);
  peerConnections : JsMap.t RTCPeerConnection;
  remoteStreams : JsMap.t string;
  connectionStates : JsMap.t string;
  constructed : nat;
  emitted : list ClientEvent
}.

Definition call (c : RtcCall) (pc : RTCPeerConnection) : RTCPeerConnection :=
  {| pc_id := pc_id pc; pc_calls := pc_calls pc ++ [c] |}.

Definition emit (ev : ClientEvent) (e : Engine) : Engine :=
  {| roomId := roomId e; userId := userId e; isConnected := isConnected e;
     error := error e; participants := participants e;
     localStream := localStream e; peerConnections := peerConnections e;
     remoteStreams := remoteStreams e;
     connectionStates := connectionStates e;
     constructed := constructed e; emitted := emitted e ++ [ev] |}.

Definition setParticipants (ps : list ParticipantInfo) (e : Engine) : Engine :=
  {| roomId := roomId e; userId := userId e; isConnected := isConnected e;
     error := error e; participants := ps;
     localStream := localStream e; peerConnections := peerConnections e;
     remoteStreams := remoteStreams e;
     connectionStates := connectionStates e;
     constructed := constructed e; emitted := emitted e |}.

Definition setError (err : option string) (e : Engine) : Engine :=
  {| roomId := roomId e; userId := userId e; isConnected := isConnected e;
     error := err; participants := participants e;
     localStream := localStream e; peerConnections := peerConnections e;
     remoteStreams := remoteStreams e;
     connectionStates := connectionStates e;
     constructed := constructed e; emitted := emitted e |}.

Definition setIsConnected (b : bool) (e : Engine) : Engine :=
  {| roomId := roomId e; userId := userId e; isConnected := b;
     error := error e; participants := participants e;
     localStream := localStream e; peerConnections := peerConnections e;
     remoteStreams := remoteStreams e;
     connectionStates := connectionStates e;
     constructed := constructed e; emitted := emitted e |}.

Definition setPeerConnections (pcs : JsMap.t RTCPeerConnection) (n : nat)
    (e : Engine) : Engine :=
  {| roomId := roomId e; userId := userId e; isConnected := isConnected e;
     error := error e; participants := participants e;
     localStream := localStream e; peerConnections := pcs;
     remoteStreams := remoteStreams e;
     connectionStates := connectionStates e;
     constructed := n; emitted := emitted e |}.

Definition setRemoteStreams (m : JsMap.t string) (e : Engine) : Engine :=
  {| roomId := roomId e; userId := userId e; isConnected := isConnected e;
     error := error e; participants := participants e;
     localStream := localStream e; peerConnections := peerConnections e;
     remoteStreams := m;
     connectionStates := connectionStates e;
     constructed := constructed e; emitted := emitted e |}.

Definition setConnectionStates (m : JsMap.t string) (e : Engine) : Engine :=
  {| roomId := roomId e; userId := userId e; isConnected := isConnected e;
     error := error e; participants := participants e;
     localStream := localStream e; peerConnections := peerConnections e;
     remoteStreams := remoteStreams e;
     connectionStates := m;
     constructed := constructed e; emitted := emitted e |}.

(** *** useSocket *)

Definition on_connect (e : Engine) : Engine :=
  emit (join_room (roomId e) (userId e))
       (setError None (setIsConnected true e)).

Definition on_disconnect (e : Engine) : Engine := setIsConnected false e.

Definition on_connect_error (e : Engine) : Engine :=
  setIsConnected false (setError (Some "Failed to connect to server") e).

Definition on_room_joined (existingParticipants : list ParticipantInfo)
    (e : Engine) : Engine :=
  setParticipants
    (filter (λ p, info_odId p ≠ userId e) existingParticipants) e.

Definition socket_on_user_joined (odUserId name : string) (e : Engine)
  : Engine :=
  match find (λ p, bool_decide (info_odId p = odUserId)) (participants e) with
  | Some _ => e
  | None =>
      setParticipants
        (participants e ++ [{| info_odId := odUserId; info_name := name |}]) e
  end.

Definition socket_on_user_left (odUserId : string) (e : Engine) : Engine :=
  setParticipants (filter (λ p, info_odId p ≠ odUserId) (participants e)) e.

Definition on_room_error (message : string) (e : Engine) : Engine :=
  setError (Some message) e.

Definition on_room_full (e : Engine) : Engine :=
  setError (Some "Room is full (max 4 participants)") e.

Definition sendOffer (targetUserId offer : string) (e : Engine) : Engine :=
  if isConnected e then emit (Client.offer targetUserId offer (userId e)) e
  else e.

Definition sendAnswer (targetUserId answer : string) (e : Engine) : Engine :=
  if isConnected e then emit (Client.answer targetUserId answer (userId e)) e
  else e.

Definition sendIceCandidate (targetUserId candidate : string) (e : Engine)
  : Engine :=
  if isConnected e
  then emit (Client.ice_candidate targetUserId candidate (userId e)) e
  else e.

(** *** useWebRTC *)

(** Returns the connection for [remoteUserId] and the engine after the call. *)
Definition createPeerConnection (remoteUserId : string) (e : Engine)
  : RTCPeerConnection * Engine :=
  match JsMap.get remoteUserId (peerConnections e) with
  | Some existing => (existing, e)
  | None =>
      let peerConnection :=
        {| pc_id := constructed e;
           pc_calls := addTrack <$> default [] (localStream e) |} in
      (peerConnection,
       setPeerConnections
         (JsMap.set remoteUserId peerConnection (peerConnections e))
         (S (constructed e)) e)
  end.

(** A call on the connection object stored for [remoteUserId]: the object is
    shared with the map, so the map entry, when still there, sees the call. *)
Definition record (remoteUserId : string) (pc : RTCPeerConnection)
    (e : Engine) : Engine :=
  if JsMap.has remoteUserId (peerConnections e) then
    setPeerConnections (JsMap.set remoteUserId pc (peerConnections e))
                       (constructed e) e
  else e.

Definition createOffer (rtc : WebRTC) (remoteUserId : string) (e : Engine)
  : Engine :=
  let '(pc, e1) := createPeerConnection remoteUserId e in
  let pc1 := call rtc_createOffer pc in
  match createOffer_result rtc pc with
  | None => record remoteUserId pc1 e1
  | Some sdp =>
      let pc2 := call (setLocalDescription sdp_offer sdp) pc1 in
      if accepts rtc pc1 (setLocalDescription sdp_offer sdp) then
        sendOffer remoteUserId sdp (record remoteUserId pc2 e1)
      else record remoteUserId pc2 e1
  end.

Definition handleOffer (rtc : WebRTC) (fromUserId sdp : string) (e : Engine)
  : Engine :=
  let '(pc, e1) := createPeerConnection fromUserId e in
  let pc1 := call (setRemoteDescription sdp_offer sdp) pc in
  if accepts rtc pc (setRemoteDescription sdp_offer sdp) then
    let pc2 := call rtc_createAnswer pc1 in
    match createAnswer_result rtc pc1 with
    | None => record fromUserId pc2 e1
    | Some ans =>
        let pc3 := call (setLocalDescription sdp_answer ans) pc2 in
        if accepts rtc pc2 (setLocalDescription sdp_answer ans) then
          sendAnswer fromUserId ans (record fromUserId pc3 e1)
        else record fromUserId pc3 e1
    end
  else record fromUserId pc1 e1.

Definition handleAnswer (fromUserId sdp : string) (e : Engine) : Engine :=
  match JsMap.get fromUserId (peerConnections e) with
  | None => e
  | Some pc =>
      record fromUserId (call (setRemoteDescription sdp_answer sdp) pc) e
  end.

Definition handleIceCandidate (fromUserId candidate : string) (e : Engine)
  : Engine :=
  match JsMap.get fromUserId (peerConnections e) with
  | None => e
  | Some pc => record fromUserId (call (addIceCandidate candidate) pc) e
  end.

Definition handleUserJoined (rtc : WebRTC) (odId : string) (e : Engine)
  : Engine :=
  createOffer rtc odId e.

(** The connection is closed and dropped from the map; nothing refers to the
    closed object afterwards. *)
Definition handleUserLeft (odId : string) (e : Engine) : Engine :=
  let e1 :=
    match JsMap.get odId (peerConnections e) with
    | Some _ =>
        setPeerConnections (JsMap.delete odId (peerConnections e))
                           (constructed e) e
    | None => e
    end in
  setConnectionStates (JsMap.delete odId (connectionStates e1))
    (setRemoteStreams (JsMap.delete odId (remoteStreams e1)) e1).

(** The callbacks [createPeerConnection] installs on a connection. *)

Definition ontrack (remoteUserId remoteStream : string) (e : Engine)
  : Engine :=
  setRemoteStreams (JsMap.set remoteUserId remoteStream (remoteStreams e)) e.

(** [event.candidate] is [null] at the end of gathering. *)
Definition onicecandidate (remoteUserId : string) (candidate : option string)
    (e : Engine) : Engine :=
  match candidate with
  | Some c => sendIceCandidate remoteUserId c e
  | None => e
  end.

Definition onconnectionstatechange (remoteUserId state : string)
    (e : Engine) : Engine :=
  setConnectionStates (JsMap.set remoteUserId state (connectionStates e)) e.

(** [close()] is called on every connection before the map is cleared. *)
Definition cleanup (e : Engine) : Engine :=
  setConnectionStates JsMap.empty
    (setRemoteStreams JsMap.empty
       (setPeerConnections JsMap.empty (constructed e) e)).

(** *** Events delivered to the engine by its socket and by the browser *)

Inductive Incoming :=
| in_connect
| in_disconnect
| in_connect_error
| in_room_error (message : string)
| in_room_full
| in_track (remoteUserId remoteStream : string)
| in_icecandidate (remoteUserId : string) (candidate : option string)
| in_connectionstatechange (remoteUserId state : string)
| in_room_joined (participants : list ParticipantInfo)
| in_user_joined (odId name : string)
| in_user_left (odId : string)
| in_offer (fromUserId sdp : string)
| in_answer (fromUserId sdp : string)
| in_ice_candidate (fromUserId candidate : string).

(** Listeners run in registration order: [useSocket]'s, then [useWebRTC]'s.
    The re-subscription of the [useWebRTC] listeners when [isConnected]
    changes, which closes and clears the connections ([cleanup]), is not part
    of [receive]. *)
Definition receive (rtc : WebRTC) (ev : Incoming) (e : Engine) : Engine :=
  match ev with
  | in_connect => on_connect e
  | in_disconnect => on_disconnect e
  | in_connect_error => on_connect_error e
  | in_room_error message => on_room_error message e
  | in_room_full => on_room_full e
  | in_track from stream => ontrack from stream e
  | in_icecandidate to c => onicecandidate to c e
  | in_connectionstatechange from state => onconnectionstatechange from state e
  | in_room_joined ps => on_room_joined ps e
  | in_user_joined odId name =>
      handleUserJoined rtc odId (socket_on_user_joined odId name e)
  | in_user_left odId => handleUserLeft odId (socket_on_user_left odId e)
  | in_offer from sdp => handleOffer rtc from sdp e
  | in_answer from sdp => handleAnswer from sdp e
  | in_ice_candidate from c => handleIceCandidate from c e
  end.

(** The offers among a list of emitted messages, as (target, sdp) pairs. *)
Definition offers (evs : list ClientEvent) : list (string * string) :=
  omap (λ ev, match ev with
              | Client.offer target sdp _ => Some (target, sdp)
              | _ => None
              end) evs.

(** The connections an engine holds for one remote identity. *)
Definition connectionsFor (remoteUserId : string) (e : Engine)
  : list (string * RTCPeerConnection) :=
  filter (λ kv, kv.1 = remoteUserId) (peerConnections e).

(** The engine after a sequence of incoming events. *)
Definition receiveAll (rtc : WebRTC) (evs : list Incoming) (e : Engine)
  : Engine :=
  foldl (λ e ev, receive rtc ev e) e evs.

End Client.

(** ** Histories of registry operations

    The registry is driven by four operations: the join, leave and disconnect
    handlers and the periodic sweep. A history pairs each operation with what
    the registry answered. *)

Module History.
Import RoomManager.

Inductive Op :=
| Join (roomId : string) (participant : Participant) (now : Z)
| Leave (roomId odId : string)
| Disconnect (socketId : string)
| Sweep (now : Z).

Inductive Outcome :=
| Joined (participants : list ParticipantInfo)
| Full
| Left
| Dropped (who : option (string * string))
| Swept.

Definition exec (op : Op) (rooms : Rooms) : Outcome * Rooms :=
  match op with
  | Join roomId participant now =>
      let '(result, rooms') := addParticipant roomId participant now rooms in
      (if success result
       then Joined (default [] (result_participants result)) else Full,
       rooms')
  | Leave roomId odId => (Left, removeParticipant roomId odId rooms)
  | Disconnect sid =>
      let '(who, rooms') := removeParticipantBySocketId sid rooms in
      (Dropped who, rooms')
  | Sweep now => (Swept, cleanupEmptyRooms now rooms)
  end.

Fixpoint run (ops : list Op) (rooms : Rooms)
  : list (Op * Outcome) * Rooms :=
  match ops with
  | [] => ([], rooms)
  | op :: ops' =>
      let '(out, rooms1) := exec op rooms in
      let '(trace, rooms2) := run ops' rooms1 in
      ((op, out) :: trace, rooms2)
  end.

(** A registry state the handlers can produce from the initial, empty map. *)
Definition Reachable (rooms : Rooms) : Prop :=
  ∃ ops, (run ops rooms0).2 = rooms.

(** The participant map of a room; a room that does not exist has none. *)
Definition participantsOf (roomId : string) (rooms : Rooms)
  : JsMap.t Participant :=
  match JsMap.get roomId rooms with
  | Some room => participants room
  | None => []
  end.

(** The capacity test of [addParticipant], on the room as it is stored. *)
Definition isFull (roomId : string) (rooms : Rooms) : bool :=
  bool_decide (MAX_PARTICIPANTS ≤ JsMap.size (participantsOf roomId rooms))%nat.

(** What every stored room satisfies: unique identities, at least one
    participant, at most [MAX_PARTICIPANTS]. *)
Definition RoomOk (room : Room) : Prop :=
  JsMap.wf (participants room)
  ∧ participants room ≠ []
  ∧ (JsMap.size (participants room) ≤ MAX_PARTICIPANTS)%nat.

Definition Consistent (rooms : Rooms) : Prop :=
  JsMap.wf rooms ∧ ∀ r room, JsMap.get r rooms = Some room → RoomOk room.

(** The wire form of a participant, as [getParticipantsList] builds it. *)
Definition toInfo (p : Participant) : ParticipantInfo :=
  {| info_odId := odId p; info_name := name p |}.

(** Forgetting the connection handles of a registry: two registries with the
    same image differ at most in the stored [socketId] values. *)
Definition eraseHandle (p : Participant) : Participant :=
  {| odId := odId p; name := name p; socketId := "" |}.

Definition eraseRoom (room : Room) : Room :=
  with_participants room
    ((λ kv, (kv.1, eraseHandle kv.2)) <$> participants room).

Definition eraseHandles (rooms : Rooms) : Rooms :=
  (λ kv, (kv.1, eraseRoom kv.2)) <$> rooms.

(** The identities stored for a room, as a set. *)
Definition identities (r : string) (rooms : Rooms) : gset string :=
  list_to_set (JsMap.keys (participantsOf r rooms)).

(** The connection handle stored for [t] in room [r]. *)
Definition handleOf (r t : string) (rooms : Rooms) : option string :=
  socketId <$> JsMap.get t (participantsOf r rooms).

(** No room but [r] is stored. *)
Definition onlyRoom (r : string) (rooms : Rooms) : Prop :=
  ∀ r', r' ≠ r → JsMap.get r' rooms = None.

(** The identity that one history entry removes from [roomId], if any. *)
Definition removed (roomId : string) (ev : Op * Outcome) : option string :=
  match ev with
  | (Leave r i, _) => if decide (r = roomId) then Some i else None
  | (Disconnect _, Dropped (Some (r, i))) =>
      if decide (r = roomId) then Some i else None
  | _ => None
  end.

(** The participant that one history entry lets into [roomId], if any. *)
Definition entered (roomId : string) (ev : Op * Outcome)
  : option Participant :=
  match ev with
  | (Join r p _, Joined _) => if decide (r = roomId) then Some p else None
  | _ => None
  end.

(** The identities joined to [roomId] and not yet left, read off a history
    alone: a successful join adds the identity, a leave or a disconnect that
    resolved to it removes it. *)
Definition joinedStep (roomId : string) (J : gset string)
    (ev : Op * Outcome) : gset string :=
  match entered roomId ev, removed roomId ev with
  | Some p, _ => {[odId p]} ∪ J
  | None, Some i => J ∖ {[i]}
  | None, None => J
  end.

Definition joined (roomId : string) (trace : list (Op * Outcome))
  : gset string :=
  foldl (joinedStep roomId) ∅ trace.

(** The connection handle supplied by the most recent successful join of
    [target] in [roomId], unless [target] was removed from the room since. *)
Definition registeredStep (roomId target : string) (h : option string)
    (ev : Op * Outcome) : option string :=
  match entered roomId ev, removed roomId ev with
  | Some p, _ => if decide (odId p = target) then Some (socketId p) else h
  | None, Some i => if decide (i = target) then None else h
  | None, None => h
  end.

Definition lastRegistered (roomId target : string)
    (trace : list (Op * Outcome)) : option string :=
  foldl (registeredStep roomId target) None trace.

(** Operations addressed to one room: its joins and leaves. *)
Definition onRoom (roomId : string) (op : Op) : Prop :=
  match op with
  | Join r _ _ => r = roomId
  | Leave r _ => r = roomId
  | _ => False
  end.

(** Any operation but a join of [roomId]. *)
Definition notJoinOf (roomId : string) (op : Op) : Prop :=
  match op with
  | Join r _ _ => r ≠ roomId
  | _ => True
  end.

End History.

(** ** The scenario of the specification, and variations of it *)

Module Scenario.
Import RoomManager History.

Definition room : string := "abcd1234".

(** A participant as the join handler builds it when no name is sent. *)
Definition user (odId socketId : string) : Participant :=
  {| odId := odId; name := "User " +:+ String.substring 0 4 odId;
     socketId := socketId |}.

(** u1 and u2 join, u1 leaves, u2 reconnects on a new connection. *)
Definition session : list Op :=
  [Join room (user "u1" "s1") 0; Join room (user "u2" "s2") 1;
   Leave room "u1"; Join room (user "u2" "s3") 2].

(** Four participants in the room. *)
Definition fourJoins : list Op :=
  [Join room (user "u1" "s1") 0; Join room (user "u2" "s2") 1;
   Join room (user "u3" "s3") 2; Join room (user "u4" "s4") 3].

Definition fullRoom : Rooms := (run fourJoins rooms0).2.

(** u1 alone in the room. *)
Definition soloRoom : Rooms := (run [Join room (user "u1" "s1") 0] rooms0).2.

(** A connection that has not joined anything yet. *)
Definition fresh (sid : string) : Server.Socket :=
  {| Server.socket_id := sid;
     Server.data := {| Server.data_roomId := None; Server.data_odId := None |};
     Server.joined := [] |}.

(** The connection of u1 once it has joined the room. *)
Definition socketOfU1 : Server.Socket :=
  {| Server.socket_id := "s1";
     Server.data := {| Server.data_roomId := Some room;
                       Server.data_odId := Some "u1" |};
     Server.joined := [room] |}.

(** u1 and u2 in the room. *)
Definition duoRoom : Rooms :=
  (run [Join room (user "u1" "s1") 0; Join room (user "u2" "s2") 1] rooms0).2.

(** The same room with other connection handles. *)
Definition duoRoom' : Rooms :=
  (run [Join room (user "u1" "s7") 0; Join room (user "u2" "s8") 1] rooms0).2.

(** An engine that has just connected. *)
Definition engine (userId : string) : Client.Engine :=
  {| Client.roomId := room; Client.userId := userId;
     Client.isConnected := true; Client.error := None;
     Client.participants := []; Client.localStream := Some ["audio"; "video"];
     Client.peerConnections := JsMap.empty;
     Client.remoteStreams := JsMap.empty;
     Client.connectionStates := JsMap.empty;
     Client.constructed := 0; Client.emitted := [] |}.

(** A browser that accepts every call. *)
Definition browser : Client.WebRTC :=
  {| Client.createOffer_result := λ _, Some "offer-sdp";
     Client.createAnswer_result := λ _, Some "answer-sdp";
     Client.accepts := λ _ _, true |}.

End Scenario.

(** ** Client: the [useVideoFilters] hook

    [FILTERS] is a plain object. [FILTERS[key]] finds the presets written in
    the literal and, for other keys, whatever a plain object inherits from
    [Object.prototype]; which names those are is left to the parameter
    [inherited]. A style object is its CSS [filter] value, [None] for [{}]. *)

Module VideoFilters.

Record Preset := mkPreset {
  preset_name : string;
  style : option string;
  preview : string
}.

Definition FILTERS : JsMap.t Preset :=
  [("none", mkPreset "None" None
              "linear-gradient(135deg, #667eea 0%, #764ba2 100%)");
   ("grayscale", mkPreset "B&W" (Some "grayscale(100%)")
                   "linear-gradient(135deg, #434343 0%, #000000 100%)");
   ("sepia", mkPreset "Sepia" (Some "sepia(70%)")
               "linear-gradient(135deg, #d4a574 0%, #8b6914 100%)");
   ("blur", mkPreset "Soft" (Some "blur(1.5px)")
              "linear-gradient(135deg, #a8c0ff 0%, #3f2b96 100%)");
   ("brightness", mkPreset "Bright" (Some "brightness(1.25)")
                    "linear-gradient(135deg, #fff6b7 0%, #f6416c 100%)");
   ("contrast", mkPreset "Vivid" (Some "contrast(1.3) saturate(1.2)")
                  "linear-gradient(135deg, #f093fb 0%, #f5576c 100%)");
   ("warm", mkPreset "Warm" (Some "sepia(25%) saturate(1.3) brightness(1.1)")
              "linear-gradient(135deg, #ff9a9e 0%, #fecfef 100%)");
   ("cool", mkPreset "Cool"
              (Some "hue-rotate(180deg) saturate(0.7) brightness(1.1)")
              "linear-gradient(135deg, #667eea 0%, #764ba2 100%)");
   ("vintage", mkPreset "Vintage"
                 (Some "sepia(40%) contrast(0.9) brightness(1.1)")
                 "linear-gradient(135deg, #c9d6ff 0%, #e2e2e2 100%)")].

(** The value of [FILTERS[key]]. *)
Inductive Property :=
| preset (p : Preset)
| inheritedProperty
| undefined.

Definition property (inherited : string → bool) (key : string) : Property :=
  match JsMap.get key FILTERS with
  | Some p => preset p
  | None => if inherited key then inheritedProperty else undefined
  end.

(** One entry of [availableFilters]. *)
Record Available := mkAvailable {
  key : string;
  available_name : string;
  available_preview : string
}.

Definition availableFilters : list Available :=
  (λ kv, {| key := kv.1; available_name := preset_name kv.2;
            available_preview := preview kv.2 |}) <$> FILTERS.

(** [FILTERS[currentFilter]?.style || {}] *)
Definition filterStyle (inherited : string → bool) (currentFilter : string)
  : option string :=
  match property inherited currentFilter with
  | preset p => style p
  | _ => None
  end.

(** The new [currentFilter] after [setFilter(filterKey)]. *)
Definition setFilter (inherited : string → bool) (filterKey : string)
    (currentFilter : string) : string :=
  match property inherited filterKey with
  | undefined => currentFilter
  | _ => filterKey
  end.

Definition hasActiveFilter (currentFilter : string) : bool :=
  negb (bool_decide (currentFilter = "none")).

(** The filter after a sequence of [setFilter] calls, from the initial
    ['none']. *)
Definition selectAll (inherited : string → bool) (keys : list string)
  : string :=
  foldl (λ current k, setFilter inherited k current) "none" keys.

(** A plain object with the standard inherited names. *)
Definition standardInherited (k : string) : bool :=
  bool_decide (k ∈ ["constructor"; "toString"; "valueOf"; "hasOwnProperty";
                    "isPrototypeOf"; "propertyIsEnumerable";
                    "toLocaleString"; "__proto__"; "__defineGetter__";
                    "__defineSetter__"; "__lookupGetter__";
                    "__lookupSetter__"]).

End VideoFilters.

(** ** Further vocabulary: keys, senders, reconnection scenarios *)

Module Invariants.
Import RoomManager History.

(** Every participant is stored under its own identity. *)
Definition keyedParticipants (ps : JsMap.t Participant) : Prop :=
  Forall (λ kv, odId kv.2 = kv.1) ps.

(** Every room is stored under its own id, its participants under theirs. *)
Definition Keyed (rooms : Rooms) : Prop :=
  Forall (λ kv, id kv.2 = kv.1 ∧ keyedParticipants (participants kv.2)) rooms.

(** The identity a client message names as its sender. *)
Definition sender (ev : Client.ClientEvent) : string :=
  match ev with
  | Client.join_room _ u => u
  | Client.leave_room _ u => u
  | Client.offer _ _ from => from
  | Client.answer _ _ from => from
  | Client.ice_candidate _ _ from => from
  end.

(** The identities of a participant list, in order. *)
Definition ids (ps : list ParticipantInfo) : list string := info_odId <$> ps.

(** A [room-joined] snapshot without repeated identities; any other event. *)
Definition snapshotDistinct (ev : Client.Incoming) : Prop :=
  match ev with
  | Client.in_room_joined ps => NoDup (ids ps)
  | _ => True
  end.

(** u1 and u2 are in the room; u2 has come back on connection s3 while its
    old connection s2 is still open. *)
Definition reconnected : Rooms :=
  (run [Join Scenario.room (Scenario.user "u1" "s1") 0;
        Join Scenario.room (Scenario.user "u2" "s2") 1;
        Join Scenario.room (Scenario.user "u2" "s3") 2] rooms0).2.

(** Two rooms. *)
Definition twoRooms : Rooms :=
  (run [Join Scenario.room (Scenario.user "u1" "s1") 0;
        Join "other" (Scenario.user "u5" "s5") 1;
        Join Scenario.room (Scenario.user "u2" "s2") 2] rooms0).2.

(** The connection of u2 once it has joined the room. *)
Definition socketOfU2 : Server.Socket :=
  {| Server.socket_id := "s2";
     Server.data := {| Server.data_roomId := Some Scenario.room;
                       Server.data_odId := Some "u2" |};
     Server.joined := [Scenario.room] |}.

End Invariants.

(** * Properties *)

(** ** Facts about [JsMap] *)

Module JsMapFacts.
Import JsMap.
Section JsMapFacts.
Context {V : Type}.
Implicit Types (m : JsMap.t V) (k : string) (v : V).

Lemma get_set_eq k v m : get k (set k v m) = Some v.
Proof.
  induction m as [|[k' v'] m IH]; simpl.
  - by rewrite decide_True.
  - destruct (decide (k = k')) as [->|Hne]; simpl.
    + by rewrite decide_True.
    + by rewrite decide_False.
Qed.

Lemma get_set_ne k k' v m : k ≠ k' → get k' (set k v m) = get k' m.
Proof.
  intros Hne. induction m as [|[k0 v0] m IH]; simpl.
  - by rewrite decide_False.
  - destruct (decide (k = k0)) as [->|Hk]; simpl.
    + by rewrite !decide_False.
    + by rewrite IH.
Qed.

Lemma get_set k k' v m :
  get k' (set k v m) = if decide (k = k') then Some v else get k' m.
Proof.
  case_decide as Hk; [subst; apply get_set_eq | by apply get_set_ne].
Qed.

Lemma set_same k v m : get k m = Some v → set k v m = m.
Proof.
  induction m as [|[k' v'] m IH]; simpl; [done|].
  destruct (decide (k = k')) as [->|Hk]; [congruence|].
  intros H. by rewrite IH.
Qed.

Lemma get_delete_eq k m : get k (delete k m) = None.
Proof.
  unfold delete. induction m as [|[k' v'] m IH]; [done|].
  rewrite filter_cons. case_decide as Hk; [|done].
  simpl in *. by rewrite decide_False.
Qed.

Lemma get_delete_ne k k' m : k ≠ k' → get k' (delete k m) = get k' m.
Proof.
  intros Hne. unfold delete. induction m as [|[k0 v0] m IH]; [done|].
  rewrite filter_cons. case_decide as Hk; simpl in *.
  - by rewrite IH.
  - rewrite IH. subst k0. by rewrite decide_False.
Qed.

Lemma get_delete k k' m :
  get k' (delete k m) = if decide (k = k') then None else get k' m.
Proof.
  case_decide as Hk; [subst; apply get_delete_eq | by apply get_delete_ne].
Qed.

Lemma get_None_keys k m : get k m = None ↔ k ∉ keys m.
Proof.
  unfold keys. induction m as [|[k' v'] m IH]; simpl.
  - split; [intros _; apply not_elem_of_nil | done].
  - rewrite not_elem_of_cons. destruct (decide (k = k')) as [->|Hk].
    + split; [done | tauto].
    + rewrite IH. tauto.
Qed.

Lemma get_Some_keys k m : is_Some (get k m) ↔ k ∈ keys m.
Proof.
  rewrite <- not_eq_None_Some, get_None_keys.
  split; [apply dec_stable | tauto].
Qed.

Lemma delete_absent k m : get k m = None → delete k m = m.
Proof.
  rewrite get_None_keys. unfold delete, keys.
  induction m as [|[k' v'] m IH]; [done|].
  rewrite fmap_cons, not_elem_of_cons, filter_cons.
  simpl fst. intros [Hk Hm]. rewrite decide_True by congruence. by rewrite IH.
Qed.

Lemma keys_set k v m :
  keys (set k v m) = if has k m then keys m else keys m ++ [k].
Proof.
  unfold keys, has. induction m as [|[k' v'] m IH]; simpl; [done|].
  destruct (decide (k = k')) as [->|Hk]; [done|].
  rewrite fmap_cons, IH. by destruct (get k m).
Qed.

Lemma keys_delete k m : keys (delete k m) = filter (λ k', k' ≠ k) (keys m).
Proof.
  unfold keys, delete. induction m as [|[k' v'] m IH]; [done|].
  rewrite fmap_cons, !filter_cons.
  simpl fst. case_decide; [rewrite fmap_cons|]; by rewrite IH.
Qed.

Lemma size_keys m : size m = length (keys m).
Proof. unfold size, keys. by rewrite length_fmap. Qed.

Lemma size_set k v m :
  size (set k v m) = if has k m then size m else S (size m).
Proof.
  rewrite !size_keys, keys_set.
  destruct (has k m); [done|]. rewrite length_app. simpl. lia.
Qed.

Lemma wf_empty : wf (@empty V).
Proof. apply NoDup_nil_2. Qed.

Lemma wf_set k v m : wf m → wf (set k v m).
Proof.
  unfold wf. rewrite keys_set. unfold has.
  destruct (get k m) eqn:Hg; [done|].
  intros Hnd. apply NoDup_app. split_and!; [done| |apply NoDup_singleton].
  intros x Hx Hx'. apply list_elem_of_singleton in Hx'. subst x.
  by apply get_None_keys in Hg.
Qed.

Lemma wf_delete k m : wf m → wf (delete k m).
Proof. unfold wf. rewrite keys_delete. apply NoDup_filter. Qed.

Lemma values_set_elem k v m : v ∈ values (set k v m).
Proof.
  unfold values. induction m as [|[k' v'] m IH]; simpl.
  - apply list_elem_of_here.
  - destruct (decide (k = k')); simpl;
      [apply list_elem_of_here | by apply list_elem_of_further].
Qed.

Lemma values_get k v m : get k m = Some v → v ∈ values m.
Proof.
  unfold values. induction m as [|[k' v'] m IH]; simpl; [done|].
  destruct (decide (k = k')) as [->|Hk].
  - intros [= ->]. apply list_elem_of_here.
  - intros H. apply list_elem_of_further. by apply IH.
Qed.

Lemma set_not_empty k v m : set k v m ≠ [].
Proof. destruct m as [|[k' v'] m]; simpl; [done|]. by case_decide. Qed.

Lemma get_filter_None (P : string * V → Prop) `{!∀ x, Decision (P x)} k m :
  get k m = None → get k (filter P m) = None.
Proof.
  induction m as [|[k' v'] m IH]; [done|].
  rewrite filter_cons. simpl. destruct (decide (k = k')) as [->|Hk]; [done|].
  intros Hg. case_decide; simpl; [rewrite decide_False by done|]; by apply IH.
Qed.
End JsMapFacts.
End JsMapFacts.

(** ** The registry through the participant map of each room *)

Section RegistryFacts.
Import RoomManager History JsMapFacts.
Implicit Types (rooms : Rooms) (p : Participant).

Lemma getOrCreateRoom_get r now rooms :
  JsMap.get r (getOrCreateRoom r now rooms).2
  = Some (getOrCreateRoom r now rooms).1.
Proof.
  unfold getOrCreateRoom. destruct (JsMap.get r rooms) eqn:Hg; simpl; [done|].
  apply get_set_eq.
Qed.

Lemma getOrCreateRoom_participants r now rooms :
  participants (getOrCreateRoom r now rooms).1 = participantsOf r rooms.
Proof.
  unfold getOrCreateRoom, participantsOf.
  by destruct (JsMap.get r rooms).
Qed.

Lemma getOrCreateRoom_full r now rooms :
  isFull r rooms = true → (getOrCreateRoom r now rooms).2 = rooms.
Proof.
  unfold isFull, getOrCreateRoom, participantsOf.
  by destruct (JsMap.get r rooms).
Qed.

Lemma addParticipant_unfold r p now rooms :
  addParticipant r p now rooms =
  let room := (getOrCreateRoom r now rooms).1 in
  let rooms1 := (getOrCreateRoom r now rooms).2 in
  if isFull r rooms then
    ({| success := false; error := Some "Room is full";
        result_participants := None |}, rooms)
  else
    let rooms2 :=
      JsMap.set r (with_participants room
                     (JsMap.set (odId p) p (participantsOf r rooms)))
                rooms1 in
    ({| success := true; error := None;
        result_participants := Some (getParticipantsList r rooms2) |},
     rooms2).
Proof.
  unfold addParticipant, isFull.
  rewrite <- (getOrCreateRoom_participants r now rooms).
  destruct (getOrCreateRoom r now rooms) as [room rooms1] eqn:Hgc. simpl.
  case_bool_decide as Hfull.
  - f_equal. change rooms1 with (room, rooms1).2. rewrite <- Hgc.
    apply getOrCreateRoom_full. unfold isFull.
    rewrite <- (getOrCreateRoom_participants r now rooms), Hgc. simpl.
    by apply bool_decide_eq_true.
  - by destruct (JsMap.has (odId p) (participants room)).
Qed.

Lemma addParticipant_success r p now rooms :
  success (addParticipant r p now rooms).1 = negb (isFull r rooms).
Proof. rewrite addParticipant_unfold. simpl. by destruct (isFull r rooms). Qed.

Lemma participantsOf_add r r' p now rooms :
  participantsOf r' (addParticipant r p now rooms).2 =
  if decide (r = r') then
    if isFull r rooms then participantsOf r rooms
    else JsMap.set (odId p) p (participantsOf r rooms)
  else participantsOf r' rooms.
Proof.
  rewrite addParticipant_unfold. simpl.
  destruct (isFull r rooms) eqn:Hfull; simpl.
  - case_decide; by subst.
  - unfold participantsOf at 1. rewrite get_set.
    case_decide as Hr; [done|].
    unfold getOrCreateRoom, participantsOf.
    destruct (JsMap.get r rooms); simpl; [done|].
    by rewrite get_set_ne.
Qed.

Lemma participantsOf_remove r r' i rooms :
  participantsOf r' (removeParticipant r i rooms) =
  if decide (r = r') then JsMap.delete i (participantsOf r rooms)
  else participantsOf r' rooms.
Proof.
  unfold removeParticipant.
  destruct (JsMap.get r rooms) as [room|] eqn:Hg.
  - simpl. case_bool_decide as Hsz.
    + unfold participantsOf at 1. rewrite get_delete, get_set.
      case_decide as Hr.
      * subst r'. unfold participantsOf. rewrite Hg.
        by destruct (JsMap.delete i (participants room)).
      * done.
    + unfold participantsOf at 1. rewrite get_set.
      case_decide as Hr; [|done].
      subst r'. unfold participantsOf. by rewrite Hg.
  - case_decide as Hr; [|done]. subst r'.
    unfold participantsOf. by rewrite Hg.
Qed.

Lemma getParticipantSocketId_participantsOf r t rooms :
  getParticipantSocketId r t rooms
  = orNull (socketId <$> JsMap.get t (participantsOf r rooms)).
Proof.
  unfold getParticipantSocketId, participantsOf.
  by destruct (JsMap.get r rooms).
Qed.

Lemma getParticipantsList_participantsOf r rooms :
  getParticipantsList r rooms
  = (λ p, {| info_odId := odId p; info_name := name p |})
      <$> JsMap.values (participantsOf r rooms).
Proof.
  unfold getParticipantsList, participantsOf.
  by destruct (JsMap.get r rooms).
Qed.

Lemma get_filter_wf (P : string * Room → Prop) `{!∀ x, Decision (P x)}
    r rooms :
  JsMap.wf rooms →
  JsMap.get r (filter P rooms) =
  match JsMap.get r rooms with
  | Some room => if decide (P (r, room)) then Some room else None
  | None => None
  end.
Proof.
  unfold JsMap.wf, JsMap.keys.
  induction rooms as [|[k v] rooms IH]; [done|].
  rewrite fmap_cons, NoDup_cons, filter_cons. simpl fst.
  intros [Hk Hnd]. simpl JsMap.get at 2.
  destruct (decide (r = k)) as [->|Hr].
  - case_decide as HP; simpl.
    + by rewrite decide_True.
    + apply get_filter_None. by apply get_None_keys.
  - case_decide as HP; simpl; [rewrite decide_False by done|]; by apply IH.
Qed.

Lemma participantsOf_sweep r now rooms :
  JsMap.wf rooms →
  participantsOf r (cleanupEmptyRooms now rooms) = participantsOf r rooms.
Proof.
  intros Hwf. unfold participantsOf, cleanupEmptyRooms.
  rewrite get_filter_wf by done.
  destruct (JsMap.get r rooms) as [room|]; [|done].
  case_decide as HP; [done|]. simpl in HP.
  destruct HP as [Hsz _]. by destruct (participants room).
Qed.

Lemma findBySocketId_removeParticipant sid rooms :
  (removeParticipantBySocketId sid rooms).2 =
  match (removeParticipantBySocketId sid rooms).1 with
  | Some (r, i) => removeParticipant r i rooms
  | None => rooms
  end.
Proof.
  unfold removeParticipantBySocketId.
  by destruct (findBySocketId sid rooms) as [[r i]|].
Qed.

(** One operation, seen from one room: the participant map changes exactly
    as the history entry says. *)
Lemma participantsOf_exec r op rooms :
  JsMap.wf rooms →
  participantsOf r (exec op rooms).2 =
  match entered r (op, (exec op rooms).1),
        removed r (op, (exec op rooms).1) with
  | Some p, _ => JsMap.set (odId p) p (participantsOf r rooms)
  | None, Some i => JsMap.delete i (participantsOf r rooms)
  | None, None => participantsOf r rooms
  end.
Proof.
  intros Hwf. destruct op as [r' p now|r' i|sid|now]; simpl.
  - pose proof (participantsOf_add r' r p now rooms) as Hp.
    pose proof (addParticipant_success r' p now rooms) as Hs.
    destruct (addParticipant r' p now rooms) as [res rooms'].
    simpl in *. rewrite Hp, Hs.
    destruct (isFull r' rooms); simpl; case_decide; by subst.
  - rewrite participantsOf_remove. case_decide; by subst.
  - pose proof (findBySocketId_removeParticipant sid rooms) as Hr.
    destruct (removeParticipantBySocketId sid rooms) as [[[r' i]|] rooms'];
      simpl in *; subst rooms'; [|done].
    rewrite participantsOf_remove. case_decide; by subst.
  - by apply participantsOf_sweep.
Qed.

Lemma entered_not_full r op rooms p :
  entered r (op, (exec op rooms).1) = Some p → isFull r rooms = false.
Proof.
  destruct op as [r' p' now|r' i|sid|now]; simpl; try done.
  pose proof (addParticipant_success r' p' now rooms) as Hs.
  destruct (addParticipant r' p' now rooms) as [res rooms']. simpl in *.
  rewrite Hs. destruct (isFull r' rooms) eqn:Hf; simpl; [done|].
  case_decide; [by subst|done].
Qed.

(** *** Consistency of every reachable registry *)

Lemma getOrCreateRoom_get_ne r r' now rooms :
  r ≠ r' → JsMap.get r' (getOrCreateRoom r now rooms).2 = JsMap.get r' rooms.
Proof.
  intros Hne. unfold getOrCreateRoom.
  destruct (JsMap.get r rooms); simpl; [done|]. by apply get_set_ne.
Qed.

Lemma getOrCreateRoom_wf r now rooms :
  JsMap.wf rooms → JsMap.wf (getOrCreateRoom r now rooms).2.
Proof.
  unfold getOrCreateRoom. destruct (JsMap.get r rooms); simpl; [done|].
  apply wf_set.
Qed.

Lemma participantsOf_ok r rooms :
  Consistent rooms →
  JsMap.wf (participantsOf r rooms)
  ∧ (JsMap.size (participantsOf r rooms) ≤ MAX_PARTICIPANTS)%nat.
Proof.
  intros [_ Hok]. unfold participantsOf.
  destruct (JsMap.get r rooms) as [room|] eqn:Hg.
  - destruct (Hok _ _ Hg) as (? & _ & ?). done.
  - split; [apply wf_empty | simpl; lia].
Qed.

Lemma addParticipant_consistent r p now rooms :
  Consistent rooms → Consistent (addParticipant r p now rooms).2.
Proof.
  intros Hc. rewrite addParticipant_unfold. simpl.
  destruct (isFull r rooms) eqn:Hfull; simpl; [done|].
  destruct (participantsOf_ok r rooms Hc) as [Hwf Hsz].
  destruct Hc as [Hwfr Hok]. split.
  - by apply wf_set, getOrCreateRoom_wf.
  - intros r0 room0. rewrite get_set. case_decide as Hr.
    + intros [= <-]. unfold RoomOk. simpl. split_and!.
      * by apply wf_set.
      * apply set_not_empty.
      * rewrite size_set. unfold isFull in Hfull.
        apply bool_decide_eq_false in Hfull.
        destruct (JsMap.has _ _); lia.
    + rewrite getOrCreateRoom_get_ne by done. apply Hok.
Qed.

Lemma removeParticipant_consistent r i rooms :
  Consistent rooms → Consistent (removeParticipant r i rooms).
Proof.
  intros Hc. unfold removeParticipant.
  destruct (JsMap.get r rooms) as [room|] eqn:Hg; [|done].
  destruct Hc as [Hwfr Hok]. destruct (Hok _ _ Hg) as (Hwf & _ & Hsz).
  simpl. case_bool_decide as Hz; split.
  - by apply wf_delete, wf_set.
  - intros r0 room0. rewrite get_delete, get_set.
    case_decide; [done|]. apply Hok.
  - by apply wf_set.
  - intros r0 room0. rewrite get_set. case_decide as Hr; [|apply Hok].
    intros [= <-]. unfold RoomOk. simpl. split_and!.
    + by apply wf_delete.
    + intros Hnil. by rewrite Hnil in Hz.
    + unfold JsMap.delete, JsMap.size in *.
      etrans; [apply length_filter|done].
Qed.

Lemma cleanupEmptyRooms_consistent now rooms :
  Consistent rooms → Consistent (cleanupEmptyRooms now rooms).
Proof.
  intros [Hwfr Hok]. unfold cleanupEmptyRooms. split.
  - unfold JsMap.wf, JsMap.keys in *.
    eapply sublist_NoDup; [done|]. apply fmap_sublist, sublist_filter.
  - intros r room. rewrite get_filter_wf by done.
    destruct (JsMap.get r rooms) as [room'|] eqn:Hg; [|done].
    case_decide; [|done]. intros [= <-]. by eapply Hok.
Qed.

Lemma exec_consistent op rooms :
  Consistent rooms → Consistent (exec op rooms).2.
Proof.
  intros Hc. destruct op as [r p now|r i|sid|now]; simpl.
  - pose proof (addParticipant_consistent r p now rooms Hc).
    by destruct (addParticipant r p now rooms).
  - by apply removeParticipant_consistent.
  - pose proof (findBySocketId_removeParticipant sid rooms) as Hr.
    destruct (removeParticipantBySocketId sid rooms) as [[[r i]|] rooms'];
      simpl in *; subst rooms'; [|done].
    by apply removeParticipant_consistent.
  - by apply cleanupEmptyRooms_consistent.
Qed.

Lemma run_cons op ops rooms :
  run (op :: ops) rooms =
  (((op, (exec op rooms).1) :: (run ops (exec op rooms).2).1),
   (run ops (exec op rooms).2).2).
Proof.
  simpl. destruct (exec op rooms) as [out rooms1]. simpl.
  by destruct (run ops rooms1).
Qed.

Lemma run_consistent ops rooms :
  Consistent rooms → Consistent (run ops rooms).2.
Proof.
  revert rooms. induction ops as [|op ops IH]; intros rooms Hc; [done|].
  rewrite run_cons. simpl. by apply IH, exec_consistent.
Qed.

Lemma rooms0_consistent : Consistent rooms0.
Proof. split; [apply wf_empty | done]. Qed.

Lemma Reachable_consistent rooms : Reachable rooms → Consistent rooms.
Proof.
  intros [ops <-]. apply run_consistent, rooms0_consistent.
Qed.

(** *** Histories against the stored participant maps *)

Lemma identities_exec r op rooms :
  JsMap.wf rooms →
  identities r (exec op rooms).2
  = joinedStep r (identities r rooms) (op, (exec op rooms).1).
Proof.
  intros Hwf. unfold identities, joinedStep.
  rewrite participantsOf_exec by done.
  destruct (entered r _) as [p|]; [|destruct (removed r _) as [i|]].
  - rewrite keys_set. unfold JsMap.has.
    destruct (JsMap.get (odId p) (participantsOf r rooms)) eqn:Hg.
    + assert (odId p ∈ JsMap.keys (participantsOf r rooms)) as Hin
        by (apply get_Some_keys; eauto).
      apply (elem_of_list_to_set (C:=gset string)) in Hin.
      symmetry. by apply subseteq_union_1_L, singleton_subseteq_l.
    + rewrite list_to_set_snoc_L. apply union_comm_L.
  - rewrite keys_delete. apply set_eq. intros x.
    rewrite elem_of_difference, !elem_of_list_to_set, list_elem_of_filter.
    rewrite not_elem_of_singleton. tauto.
  - done.
Qed.

Lemma handleOf_exec r t op rooms :
  JsMap.wf rooms →
  handleOf r t (exec op rooms).2
  = registeredStep r t (handleOf r t rooms) (op, (exec op rooms).1).
Proof.
  intros Hwf. unfold handleOf, registeredStep.
  rewrite participantsOf_exec by done.
  destruct (entered r _) as [p|]; [|destruct (removed r _) as [i|]].
  - rewrite get_set. by case_decide.
  - rewrite get_delete. by case_decide.
  - done.
Qed.

Lemma identities_run r ops rooms :
  Consistent rooms →
  identities r (run ops rooms).2
  = foldl (joinedStep r) (identities r rooms) (run ops rooms).1.
Proof.
  revert rooms. induction ops as [|op ops IH]; intros rooms Hc; [done|].
  rewrite run_cons. simpl.
  rewrite IH by by apply exec_consistent.
  rewrite identities_exec; [done | apply Hc].
Qed.

Lemma handleOf_run r t ops rooms :
  Consistent rooms →
  handleOf r t (run ops rooms).2
  = foldl (registeredStep r t) (handleOf r t rooms) (run ops rooms).1.
Proof.
  revert rooms. induction ops as [|op ops IH]; intros rooms Hc; [done|].
  rewrite run_cons. simpl.
  rewrite IH by by apply exec_consistent.
  rewrite handleOf_exec; [done | apply Hc].
Qed.

(** A history that ends with [target] registered does so whatever the
    registry held before it. *)
Lemma registered_from_any r t trace h s :
  foldl (registeredStep r t) None trace = Some s →
  foldl (registeredStep r t) h trace = Some s.
Proof.
  revert h. induction trace as [|ev trace IH] using rev_ind; [done|].
  intros h. rewrite !foldl_app. simpl. unfold registeredStep at 1 3.
  destruct (entered r ev) as [p|]; [|destruct (removed r ev) as [i|]];
    try case_decide; auto.
Qed.

(** *** One room alone in the registry *)

Lemma exec_onlyRoom r op rooms :
  onRoom r op → onlyRoom r rooms → onlyRoom r (exec op rooms).2.
Proof.
  intros Hop Hr r' Hne.
  destruct op as [r0 p now|r0 i|sid|now]; simpl in Hop; try done; subst r0.
  - simpl. pose proof (addParticipant_unfold r p now rooms) as Hu.
    destruct (addParticipant r p now rooms) as [res rooms'].
    simpl in *. destruct (isFull r rooms); simpl in Hu.
    + injection Hu as _ ->. by apply Hr.
    + injection Hu as _ ->. rewrite get_set_ne by done.
      rewrite getOrCreateRoom_get_ne by done. by apply Hr.
  - simpl. unfold removeParticipant.
    destruct (JsMap.get r rooms) as [room|]; [|by apply Hr].
    simpl. case_bool_decide.
    + rewrite get_delete_ne, get_set_ne by done. by apply Hr.
    + rewrite get_set_ne by done. by apply Hr.
Qed.

Lemma run_onlyRoom r ops rooms :
  Forall (onRoom r) ops → onlyRoom r rooms → onlyRoom r (run ops rooms).2.
Proof.
  intros Hops. revert rooms.
  induction Hops as [|op ops Hop Hops IH]; intros rooms Hr; [done|].
  rewrite run_cons. simpl. by apply IH, exec_onlyRoom.
Qed.

Lemma onlyRoom_shape r rooms :
  JsMap.wf rooms → onlyRoom r rooms →
  rooms = [] ∨ ∃ room, rooms = [(r, room)].
Proof.
  intros Hwf Hr. destruct rooms as [|[k room] rooms]; [by left|right].
  assert (k = r) as ->.
  { destruct (decide (k = r)) as [|Hne]; [done|].
    specialize (Hr k Hne). simpl in Hr. by rewrite decide_True in Hr. }
  exists room. f_equal.
  destruct rooms as [|[k' room'] rooms]; [done|exfalso].
  unfold JsMap.wf, JsMap.keys in Hwf. rewrite !fmap_cons in Hwf.
  simpl in Hwf. apply NoDup_cons in Hwf as [Hnin _].
  destruct (decide (k' = r)) as [->|Hne].
  - apply Hnin, list_elem_of_here.
  - specialize (Hr k' Hne). simpl in Hr.
    rewrite decide_False, decide_True in Hr by done. done.
Qed.

Lemma getStats_onlyRoom r rooms :
  JsMap.wf rooms → onlyRoom r rooms →
  totalParticipants (getStats rooms) = JsMap.size (participantsOf r rooms).
Proof.
  intros Hwf Hr. destruct (onlyRoom_shape r rooms Hwf Hr) as [->|[room ->]].
  - done.
  - unfold participantsOf. simpl. by rewrite decide_True.
Qed.

Lemma size_identities r rooms :
  Consistent rooms →
  size (identities r rooms) = JsMap.size (participantsOf r rooms).
Proof.
  intros Hc. destruct (participantsOf_ok r rooms Hc) as [Hwf _].
  unfold identities. rewrite size_list_to_set by done.
  by rewrite size_keys.
Qed.

Lemma exec_absent r op rooms :
  notJoinOf r op → JsMap.get r rooms = None →
  JsMap.get r (exec op rooms).2 = None.
Proof.
  intros Hop Hr. destruct op as [r0 p now|r0 i|sid|now]; simpl in *.
  - pose proof (addParticipant_unfold r0 p now rooms) as Hu.
    destruct (addParticipant r0 p now rooms) as [res rooms'].
    simpl in *. destruct (isFull r0 rooms); simpl in Hu.
    + by injection Hu as _ ->.
    + injection Hu as _ ->. rewrite get_set_ne by done.
      by rewrite getOrCreateRoom_get_ne.
  - unfold removeParticipant.
    destruct (JsMap.get r0 rooms) as [room|] eqn:Hg; [|done].
    assert (r0 ≠ r) by congruence.
    simpl. case_bool_decide.
    + by rewrite get_delete_ne, get_set_ne.
    + by rewrite get_set_ne.
  - pose proof (findBySocketId_removeParticipant sid rooms) as Hrm.
    destruct (removeParticipantBySocketId sid rooms) as [[[r0 i]|] rooms'];
      simpl in *; subst rooms'; [|done].
    unfold removeParticipant.
    destruct (JsMap.get r0 rooms) as [room|] eqn:Hg; [|done].
    assert (r0 ≠ r) by congruence.
    simpl. case_bool_decide.
    + by rewrite get_delete_ne, get_set_ne.
    + by rewrite get_set_ne.
  - by apply get_filter_None.
Qed.

Lemma run_absent r ops rooms :
  Forall (notJoinOf r) ops → JsMap.get r rooms = None →
  JsMap.get r (run ops rooms).2 = None.
Proof.
  intros Hops. revert rooms.
  induction Hops as [|op ops Hop Hops IH]; intros rooms Hr; [done|].
  rewrite run_cons. simpl. by apply IH, exec_absent.
Qed.

Lemma removeParticipant_last r t room rooms :
  JsMap.get r rooms = Some room →
  JsMap.keys (participants room) = [t] →
  JsMap.get r (removeParticipant r t rooms) = None.
Proof.
  intros Hg Hk. unfold removeParticipant. rewrite Hg. simpl.
  assert (JsMap.delete t (participants room) = []) as ->.
  { apply fmap_nil_inv with (f := fst).
    change (JsMap.keys (JsMap.delete t (participants room)) = []).
    rewrite keys_delete, Hk, filter_cons, decide_False by tauto. done. }
  simpl. apply get_delete_eq.
Qed.

Lemma removeParticipant_absent r i rooms :
  Consistent rooms →
  JsMap.get i (participantsOf r rooms) = None →
  removeParticipant r i rooms = rooms.
Proof.
  intros [_ Hok] Hi. unfold removeParticipant, participantsOf in *.
  destruct (JsMap.get r rooms) as [room|] eqn:Hg; [|done].
  destruct (Hok _ _ Hg) as (_ & Hne & _).
  rewrite delete_absent by done. simpl.
  assert (with_participants room (participants room) = room) as ->
    by by destruct room.
  rewrite set_same by done.
  rewrite bool_decide_eq_false_2; [done|].
  by destruct (participants room).
Qed.
End RegistryFacts.

(** ** The registry: counting, routing, leaving *)

Section Registry.
Import RoomManager History JsMapFacts.

(** C4. For every sequence of joins and leaves on one room id, starting
    from the empty registry, the participant count reported by [getStats]
    is the number of distinct identities that joined successfully and have
    not left since, and the member count of the room is at most 4. *)
Theorem stats_count_is_joined_not_left (r : string) (ops : list Op) :
  Forall (onRoom r) ops →
  totalParticipants (getStats (run ops rooms0).2)
    = size (joined r (run ops rooms0).1)
  ∧ (JsMap.size (participantsOf r (run ops rooms0).2) ≤ 4)%nat
  ∧ (totalParticipants (getStats (run ops rooms0).2) ≤ 4)%nat.
Proof.
  intros Hops.
  pose proof (run_consistent ops rooms0 rooms0_consistent) as Hc.
  assert (onlyRoom r (run ops rooms0).2) as Hr
    by by apply run_onlyRoom.
  rewrite (getStats_onlyRoom r) by (done || apply Hc).
  destruct (participantsOf_ok r _ Hc) as [_ Hsz].
  split_and!; [|done..].
  rewrite <- size_identities by done.
  by rewrite identities_run by apply rooms0_consistent.
Qed.

Lemma stats_count_is_joined_not_left_witness :
  Forall (onRoom Scenario.room) Scenario.session
  ∧ totalParticipants (getStats (run Scenario.session rooms0).2) = 1
  ∧ size (joined Scenario.room (run Scenario.session rooms0).1) = 1.
Proof.
  assert (Forall (onRoom Scenario.room) Scenario.session) as Hops
    by (repeat constructor).
  split; [exact Hops|].
  destruct (stats_count_is_joined_not_left Scenario.room Scenario.session
              Hops) as (Heq & _ & _).
  split; [reflexivity|]. rewrite <- Heq. reflexivity.
Defined.

(** C5. After any history of the registry, [getParticipantSocketId] for a
    target resolves to the connection handle supplied by the most recent
    successful join of that target in that room (the target not having
    been removed since), whatever reconnections came before. Connection
    handles are Socket.IO ids, which are not empty. *)
Theorem route_resolves_last_registered (r t s : string) (ops : list Op) :
  lastRegistered r t (run ops rooms0).1 = Some s →
  s ≠ "" →
  getParticipantSocketId r t (run ops rooms0).2 = Some s.
Proof.
  intros Hlast Hs.
  rewrite getParticipantSocketId_participantsOf.
  change (orNull (handleOf r t (run ops rooms0).2) = Some s).
  rewrite handleOf_run by apply rooms0_consistent.
  change (handleOf r t rooms0) with (@None string).
  unfold lastRegistered in Hlast. rewrite Hlast.
  unfold orNull, truthy. by rewrite bool_decide_eq_false_2.
Qed.

Lemma route_resolves_last_registered_witness :
  lastRegistered Scenario.room "u2" (run Scenario.session rooms0).1
    = Some "s3"
  ∧ getParticipantSocketId Scenario.room "u2"
      (run Scenario.session rooms0).2 = Some "s3".
Proof.
  assert (lastRegistered Scenario.room "u2"
            (run Scenario.session rooms0).1 = Some "s3") as Hlast
    by reflexivity.
  split; [exact Hlast|].
  apply (route_resolves_last_registered Scenario.room "u2" "s3"
           Scenario.session Hlast).
  discriminate.
Defined.

(** C6. Removing the only participant of a room deletes the room at once,
    and every later lookup of a connection handle in that room returns
    [null] as long as no join of that room occurs; removing an identity
    that is not in the room leaves a reachable registry unchanged. *)
Theorem leave_last_deletes_room_absent_is_noop :
  (∀ (rooms : Rooms) (r t : string) (room : Room),
      JsMap.get r rooms = Some room →
      JsMap.keys (participants room) = [t] →
      roomExists r (removeParticipant r t rooms) = false
      ∧ ∀ (ops : list Op) (x : string),
          Forall (notJoinOf r) ops →
          getParticipantSocketId r x
            (run ops (removeParticipant r t rooms)).2 = None)
  ∧ (∀ (rooms : Rooms) (r i : string),
      Reachable rooms →
      JsMap.get i (participantsOf r rooms) = None →
      removeParticipant r i rooms = rooms).
Proof.
  split.
  - intros rooms r t room Hg Hk.
    pose proof (removeParticipant_last r t room rooms Hg Hk) as Hgone.
    split.
    + unfold roomExists, JsMap.has. by rewrite Hgone.
    + intros ops x Hops. unfold getParticipantSocketId.
      by rewrite run_absent.
  - intros rooms r i Hreach Hi.
    apply removeParticipant_absent; [by apply Reachable_consistent|done].
Qed.

Lemma leave_last_deletes_room_absent_is_noop_witness :
  (roomExists Scenario.room
     (removeParticipant Scenario.room "u1" Scenario.soloRoom) = false
   ∧ getParticipantSocketId Scenario.room "u1"
       (run [Leave Scenario.room "u1"; Disconnect "s1"; Sweep 4000000;
             Join "other" (Scenario.user "u1" "s9") 5]
            (removeParticipant Scenario.room "u1" Scenario.soloRoom)).2
     = None)
  ∧ removeParticipant Scenario.room "u7" Scenario.fullRoom
    = Scenario.fullRoom.
Proof.
  destruct leave_last_deletes_room_absent_is_noop as [Hlast Habsent].
  split.
  - destruct (Hlast Scenario.soloRoom Scenario.room "u1"
                (mkRoom Scenario.room
                   [("u1", Scenario.user "u1" "s1")] 0)
                eq_refl eq_refl) as [Hex Hroute].
    split; [exact Hex|]. apply Hroute.
    repeat constructor. simpl. discriminate.
  - apply Habsent.
    + exists Scenario.fourJoins. reflexivity.
    + reflexivity.
Defined.
End Registry.

(** ** The join handler and the snapshot it sends *)

Section JoinHandler.
Import RoomManager History JsMapFacts Server.

Lemma addParticipant_lists_joiner r p now rooms :
  isFull r rooms = false →
  toInfo p ∈ getParticipantsList r (addParticipant r p now rooms).2.
Proof.
  intros Hfull. rewrite getParticipantsList_participantsOf.
  rewrite participantsOf_add, decide_True, Hfull by done.
  apply (list_elem_of_fmap_2 toInfo), values_set_elem.
Qed.

(** What the handler does with a well-formed request. *)
Lemma on_join_room_valid payload now socket rooms r u :
  join_roomId payload = Some r → r ≠ "" →
  join_userId payload = Some u → u ≠ "" →
  let p := {| odId := u; name := displayName (join_name payload) u;
              socketId := socket_id socket |} in
  on_join_room payload now socket rooms =
  if isFull r rooms then
    (socket, rooms, [mkEmit (SocketEmit (socket_id socket)) room_full])
  else
    ({| socket_id := socket_id socket;
        data := {| data_roomId := Some r; data_odId := Some u |};
        joined := socket_join r (joined socket) |},
     (addParticipant r p now rooms).2,
     [mkEmit (SocketEmit (socket_id socket))
        (room_joined
           (getParticipantsList r (addParticipant r p now rooms).2));
      mkEmit (SocketTo r (socket_id socket))
        (user_joined u (displayName (join_name payload) u))]).
Proof.
  intros Hr Hr' Hu Hu' p. unfold on_join_room. rewrite Hr, Hu. simpl.
  rewrite !bool_decide_eq_false_2 by done. simpl. fold p.
  rewrite addParticipant_unfold. simpl.
  by destruct (isFull r rooms).
Qed.

Lemma on_join_room_invalid payload now socket rooms :
  truthy (join_roomId payload) = false
  ∨ truthy (join_userId payload) = false →
  on_join_room payload now socket rooms =
  (socket, rooms,
   [mkEmit (SocketEmit (socket_id socket))
      (room_error "Invalid room ID or user ID")]).
Proof.
  intros H. unfold on_join_room.
  destruct H as [-> | ->]; [done|].
  by rewrite orb_true_r.
Qed.

Lemma truthy_Some v : truthy v = true → ∃ s, v = Some s ∧ s ≠ "".
Proof.
  destruct v as [s|]; [|done]. simpl. intros H. exists s. split; [done|].
  apply negb_true_iff, bool_decide_eq_false in H. done.
Qed.

(** C1, as the code has it. Whenever the join handler answers
    [room-joined], the snapshot is the participant list of the room after
    the join and contains the joining identity; it is the joining client
    whose [room-joined] listener drops its own identity, so the participant
    list the client keeps excludes it. *)
Theorem join_snapshot_lists_joiner_client_drops_it
    (payload : JoinRoom) (now : Z) (socket : Socket) (rooms : Rooms)
    (ps : list ParticipantInfo) :
  mkEmit (SocketEmit (socket_id socket)) (room_joined ps)
    ∈ (on_join_room payload now socket rooms).2 →
  ∃ r u,
    join_roomId payload = Some r ∧ join_userId payload = Some u
    ∧ ps = getParticipantsList r (on_join_room payload now socket rooms).1.2
    ∧ u ∈ info_odId <$> ps
    ∧ ∀ e : Client.Engine, Client.userId e = u →
        Client.participants (Client.on_room_joined ps e)
          = filter (λ q, info_odId q ≠ u) ps
        ∧ u ∉ info_odId <$> Client.participants (Client.on_room_joined ps e).
Proof.
  intros Hin.
  destruct (truthy (join_roomId payload)) eqn:Hr;
    [destruct (truthy (join_userId payload)) eqn:Hu|].
  - apply truthy_Some in Hr as (r & Hr & Hr').
    apply truthy_Some in Hu as (u & Hu & Hu').
    rewrite (on_join_room_valid payload now socket rooms r u) in * by done.
    destruct (isFull r rooms) eqn:Hfull; simpl in *.
    + apply list_elem_of_singleton in Hin. discriminate.
    + apply elem_of_cons in Hin as [[= ->]|Hin];
        [|apply list_elem_of_singleton in Hin; discriminate].
      exists r, u. split_and!; [done..| |].
      * apply list_elem_of_fmap. eexists (toInfo _).
        split; [|by apply addParticipant_lists_joiner]. done.
      * intros e <-. split; [done|].
        unfold Client.on_room_joined. simpl.
        intros (q & Hq & Hq')%list_elem_of_fmap.
        apply list_elem_of_filter in Hq' as [Hne _]. done.
  - rewrite on_join_room_invalid in Hin by auto.
    apply list_elem_of_singleton in Hin. discriminate.
  - rewrite on_join_room_invalid in Hin by auto.
    apply list_elem_of_singleton in Hin. discriminate.
Qed.

Lemma join_snapshot_lists_joiner_client_drops_it_witness :
  ∃ r u,
    Some Scenario.room = Some r ∧ Some "u2" = Some u
    ∧ [mkInfo "u1" "User u1"; mkInfo "u2" "User u2"]
      = getParticipantsList r Scenario.duoRoom
    ∧ u ∈ info_odId <$> [mkInfo "u1" "User u1"; mkInfo "u2" "User u2"]
    ∧ ∀ e : Client.Engine, Client.userId e = u →
        Client.participants
          (Client.on_room_joined
             [mkInfo "u1" "User u1"; mkInfo "u2" "User u2"] e)
          = filter (λ q, info_odId q ≠ u)
              [mkInfo "u1" "User u1"; mkInfo "u2" "User u2"]
        ∧ u ∉ info_odId <$>
              Client.participants
                (Client.on_room_joined
                   [mkInfo "u1" "User u1"; mkInfo "u2" "User u2"] e).
Proof.
  apply (join_snapshot_lists_joiner_client_drops_it
           (mkJoinRoom (Some Scenario.room) (Some "u2") None) 1
           (Scenario.fresh "s2") Scenario.soloRoom
           [mkInfo "u1" "User u1"; mkInfo "u2" "User u2"]).
  apply list_elem_of_here.
Defined.

(** C1 as stated fails: u2 joins the room where u1 is, and the
    [room-joined] snapshot sent to u2 lists u2 itself. *)
Lemma join_snapshot_includes_joiner :
  on_join_room (mkJoinRoom (Some Scenario.room) (Some "u2") None) 1
    (Scenario.fresh "s2") Scenario.soloRoom
  = ({| socket_id := "s2";
        data := {| data_roomId := Some Scenario.room;
                   data_odId := Some "u2" |};
        joined := [Scenario.room] |},
     Scenario.duoRoom,
     [mkEmit (SocketEmit "s2")
        (room_joined [mkInfo "u1" "User u1"; mkInfo "u2" "User u2"]);
      mkEmit (SocketTo Scenario.room "s2") (user_joined "u2" "User u2")])
  ∧ "u2" ∈ info_odId <$> [mkInfo "u1" "User u1"; mkInfo "u2" "User u2"].
Proof.
  split; [reflexivity|]. apply list_elem_of_further, list_elem_of_here.
Qed.

(** The validation of the join handler, for a request that carries a payload
    object: when the room id or the user id is missing (or empty) the
    request is answered with one [room-error] sent to the requesting
    connection only; the registry and the connection's data are as
    before. *)
Theorem invalid_join_only_reports_room_error
    (payload : JoinRoom) (now : Z) (socket : Socket) (rooms : Rooms) :
  truthy (join_roomId payload) = false
  ∨ truthy (join_userId payload) = false →
  on_join_room payload now socket rooms =
  (socket, rooms,
   [mkEmit (SocketEmit (socket_id socket))
      (room_error "Invalid room ID or user ID")]).
Proof.
  intros [H|H]; unfold on_join_room; rewrite H; [done|].
  by rewrite orb_true_r.
Qed.

Lemma invalid_join_only_reports_room_error_witness :
  on_join_room (mkJoinRoom None (Some "u9") (Some "Eve")) 7
    (Scenario.fresh "s9") Scenario.duoRoom
  = (Scenario.fresh "s9", Scenario.duoRoom,
     [mkEmit (SocketEmit "s9") (room_error "Invalid room ID or user ID")])
  ∧ on_join_room (mkJoinRoom (Some Scenario.room) (Some "") None) 7
      (Scenario.fresh "s9") Scenario.duoRoom
    = (Scenario.fresh "s9", Scenario.duoRoom,
       [mkEmit (SocketEmit "s9") (room_error "Invalid room ID or user ID")]).
Proof.
  split.
  - apply (invalid_join_only_reports_room_error
             (mkJoinRoom None (Some "u9") (Some "Eve")) 7
             (Scenario.fresh "s9") Scenario.duoRoom).
    left. reflexivity.
  - apply (invalid_join_only_reports_room_error
             (mkJoinRoom (Some Scenario.room) (Some "") None) 7
             (Scenario.fresh "s9") Scenario.duoRoom).
    right. reflexivity.
Defined.

(** C9 at the input where the code departs from it. A [join-room] event
    sent without any payload has neither room id nor identity, yet the
    listener throws while destructuring its argument, before it reaches its
    validation test: no [room-error] is sent, and nothing catches the
    exception. The same request with an empty payload object is answered
    with [room-error] and changes nothing. *)
Theorem join_without_payload_throws_before_validation
    (now : Z) (socket : Socket) (rooms : Rooms) :
  join_room_listener no_payload now socket rooms = threw_TypeError
  ∧ join_room_listener (payload_object (mkJoinRoom None None None))
      now socket rooms
    = returned (socket, rooms,
                [mkEmit (SocketEmit (socket_id socket))
                   (room_error "Invalid room ID or user ID")]).
Proof.
  split; [reflexivity|]. simpl. f_equal.
Qed.
End JoinHandler.

(** ** Connection handles stay on the server *)

Section Handles.
Import RoomManager History JsMapFacts Server.

Lemma get_fmap_values {V W : Type} (f : V → W) k (m : JsMap.t V) :
  JsMap.get k ((λ kv, (kv.1, f kv.2)) <$> m) = f <$> JsMap.get k m.
Proof.
  induction m as [|[k' v] m IH]; [done|].
  rewrite fmap_cons. simpl. by case_decide.
Qed.

Lemma set_fmap_values {V W : Type} (f : V → W) k v (m : JsMap.t V) :
  (λ kv, (kv.1, f kv.2)) <$> JsMap.set k v m
  = JsMap.set k (f v) ((λ kv, (kv.1, f kv.2)) <$> m).
Proof.
  induction m as [|[k' v'] m IH]; [done|].
  rewrite fmap_cons. simpl. case_decide; [done|].
  by rewrite fmap_cons, IH.
Qed.

Lemma values_fmap_values {V W : Type} (f : V → W) (m : JsMap.t V) :
  JsMap.values ((λ kv, (kv.1, f kv.2)) <$> m) = f <$> JsMap.values m.
Proof.
  unfold JsMap.values. rewrite <- !list_fmap_compose. done.
Qed.

Lemma participantsOf_erase r rooms :
  participantsOf r (eraseHandles rooms)
  = (λ kv, (kv.1, eraseHandle kv.2)) <$> participantsOf r rooms.
Proof.
  unfold participantsOf, eraseHandles. rewrite get_fmap_values.
  by destruct (JsMap.get r rooms).
Qed.

Lemma infos_erase (ps : JsMap.t Participant) :
  toInfo <$> JsMap.values ((λ kv, (kv.1, eraseHandle kv.2)) <$> ps)
  = toInfo <$> JsMap.values ps.
Proof. rewrite values_fmap_values, <- list_fmap_compose. done. Qed.

Lemma getParticipantsList_erase r rooms :
  getParticipantsList r (eraseHandles rooms) = getParticipantsList r rooms.
Proof.
  rewrite !getParticipantsList_participantsOf, participantsOf_erase.
  apply infos_erase.
Qed.

Lemma isFull_erase r rooms : isFull r (eraseHandles rooms) = isFull r rooms.
Proof.
  unfold isFull. rewrite participantsOf_erase.
  unfold JsMap.size. by rewrite length_fmap.
Qed.

Lemma snapshot_erase r p now rooms :
  isFull r rooms = false →
  getParticipantsList r (addParticipant r p now rooms).2
  = toInfo <$> JsMap.values
      (JsMap.set (odId p) (eraseHandle p) (participantsOf r (eraseHandles rooms))).
Proof.
  intros Hfull. rewrite getParticipantsList_participantsOf.
  rewrite participantsOf_add, decide_True, Hfull by done.
  rewrite participantsOf_erase, <- set_fmap_values.
  symmetry. apply infos_erase.
Qed.

(** C10. The participant lists sent to clients carry the identity and the
    display name of each participant and nothing else: two registries that
    differ only in the stored connection handles give the same
    [getParticipantsList] for every room, and the join handler, run on
    either of them from any two connections, emits the same events. *)
Theorem participant_lists_hide_socketId (rooms1 rooms2 : Rooms) :
  eraseHandles rooms1 = eraseHandles rooms2 →
  (∀ r, getParticipantsList r rooms1 = getParticipantsList r rooms2)
  ∧ (∀ payload now socket1 socket2,
        event <$> (on_join_room payload now socket1 rooms1).2
        = event <$> (on_join_room payload now socket2 rooms2).2).
Proof.
  intros Heq. split.
  - intros r.
    by rewrite <- (getParticipantsList_erase r rooms1), Heq,
               getParticipantsList_erase.
  - intros payload now socket1 socket2.
    destruct (truthy (join_roomId payload)) eqn:Hr;
      [destruct (truthy (join_userId payload)) eqn:Hu|].
    + apply truthy_Some in Hr as (r & Hr & Hr').
      apply truthy_Some in Hu as (u & Hu & Hu').
      rewrite !(on_join_room_valid payload now _ _ r u) by done.
      assert (isFull r rooms1 = isFull r rooms2) as Hfull
        by by rewrite <- (isFull_erase r rooms1), Heq, isFull_erase.
      rewrite Hfull. destruct (isFull r rooms2) eqn:Hf2; [done|].
      simpl. rewrite !snapshot_erase by done. simpl.
      by rewrite Heq.
    + by rewrite !on_join_room_invalid by auto.
    + by rewrite !on_join_room_invalid by auto.
Qed.

Lemma participant_lists_hide_socketId_witness :
  Scenario.duoRoom ≠ Scenario.duoRoom'
  ∧ getParticipantsList Scenario.room Scenario.duoRoom
    = getParticipantsList Scenario.room Scenario.duoRoom'
  ∧ event <$> (on_join_room
                 (mkJoinRoom (Some Scenario.room) (Some "u3") (Some "Cy")) 2
                 (Scenario.fresh "s3") Scenario.duoRoom).2
    = event <$> (on_join_room
                   (mkJoinRoom (Some Scenario.room) (Some "u3") (Some "Cy")) 2
                   (Scenario.fresh "s9") Scenario.duoRoom').2.
Proof.
  split; [discriminate|].
  destruct (participant_lists_hide_socketId Scenario.duoRoom
              Scenario.duoRoom' eq_refl) as [Hlist Hjoin].
  split; [apply Hlist | apply Hjoin].
Defined.
End Handles.

(** ** Reconnection and capacity *)

Section Reconnection.
Import RoomManager History JsMapFacts Server.

(** Below capacity, a join with an identity already in the room succeeds,
    keeps the member count and replaces the stored connection handle. *)
Lemma rejoin_below_capacity r p now rooms :
  JsMap.has (odId p) (participantsOf r rooms) = true →
  isFull r rooms = false →
  success (addParticipant r p now rooms).1 = true
  ∧ JsMap.size (participantsOf r (addParticipant r p now rooms).2)
    = JsMap.size (participantsOf r rooms)
  ∧ handleOf r (odId p) (addParticipant r p now rooms).2
    = Some (socketId p).
Proof.
  intros Hhas Hfull. rewrite addParticipant_success, Hfull.
  unfold handleOf.
  rewrite participantsOf_add, decide_True, Hfull by done.
  by rewrite size_set, Hhas, get_set_eq.
Qed.

(** At capacity the join is refused before the identity is looked at. *)
Lemma join_at_capacity r p now rooms :
  isFull r rooms = true →
  addParticipant r p now rooms
  = ({| success := false; error := Some "Room is full";
        result_participants := None |}, rooms).
Proof. intros Hfull. by rewrite addParticipant_unfold, Hfull. Qed.

(** C2 at the input where the code departs from it: u1 to u4 are in the
    room, and u1 comes back on a new connection. The join is refused with
    [room-full], and the registry keeps the stale handle of u1. *)
Theorem reconnect_into_full_room_refused :
  Reachable Scenario.fullRoom
  ∧ JsMap.has "u1" (participantsOf Scenario.room Scenario.fullRoom) = true
  ∧ JsMap.size (participantsOf Scenario.room Scenario.fullRoom) = 4
  ∧ addParticipant Scenario.room (Scenario.user "u1" "s5") 4
      Scenario.fullRoom
    = ({| success := false; error := Some "Room is full";
          result_participants := None |}, Scenario.fullRoom)
  ∧ on_join_room (mkJoinRoom (Some Scenario.room) (Some "u1") None) 4
      (Scenario.fresh "s5") Scenario.fullRoom
    = (Scenario.fresh "s5", Scenario.fullRoom,
       [mkEmit (SocketEmit "s5") room_full])
  ∧ getParticipantSocketId Scenario.room "u1" Scenario.fullRoom = Some "s1".
Proof.
  split_and!; try reflexivity.
  exists Scenario.fourJoins. reflexivity.
Qed.
End Reconnection.

(** ** The relay of offers, answers and candidates *)

Section Relay.
Import RoomManager History Server.

(** C3, as the code has it. The [fromUserId] delivered with a relayed
    offer, answer or candidate is the [fromUserId] field of the client's
    message, unchanged, and the identity registered for the sending
    connection plays no part: the relay of the same message from a
    connection registered under any other identity is the same. *)
Theorem relay_forwards_client_fromUserId :
  forwardsVerbatim on_offer offer
  ∧ forwardsVerbatim on_answer answer
  ∧ forwardsVerbatim on_ice_candidate ice_candidate.
Proof.
  assert (∀ mk, forwardsVerbatim (relay mk) mk) as Hrelay.
  { intros mk.
    intros payload socket rooms. unfold relay. simpl.
    destruct (data_roomId (data socket)) as [r|] eqn:Hr; simpl;
      [|split_and!; [lia| intros e []%elem_of_nil | done]].
    destruct (negb (bool_decide (r = ""))); simpl;
      [|split_and!; [lia| intros e []%elem_of_nil | done]].
    destruct (targetUserId payload) as [t|] eqn:Ht;
      [|split_and!; [simpl; lia| intros e []%elem_of_nil | done]].
    destruct (getParticipantSocketId r t rooms) as [sid|] eqn:Hs;
      [|split_and!; [simpl; lia| intros e []%elem_of_nil | done]].
    split_and!; [simpl; lia| |done].
    intros e ->%list_elem_of_singleton. by exists r, t, sid. }
  split_and!; apply Hrelay.
Qed.

Lemma relay_forwards_client_fromUserId_witness :
  ∃ r t sid,
    data_roomId (data Scenario.socketOfU1) = Some r
    ∧ Some "u2" = Some t
    ∧ getParticipantSocketId r t Scenario.duoRoom = Some sid
    ∧ mkEmit (IoTo "s2") (offer (Some "u1") (Some "sdp"))
      = mkEmit (IoTo sid) (offer (Some "u1") (Some "sdp")).
Proof.
  destruct relay_forwards_client_fromUserId as (Hoffer & _ & _).
  destruct (Hoffer (mkSignal (Some "u2") (Some "sdp") (Some "u1"))
              Scenario.socketOfU1 Scenario.duoRoom) as (_ & Hev & _).
  apply (Hev (mkEmit (IoTo "s2") (offer (Some "u1") (Some "sdp")))).
  apply list_elem_of_here.
Defined.

(** C3 as stated fails: the connection registered as u1 sends an offer to
    u2 under the name of u3, and u2 is told the offer is from u3; a second
    relay that differs only in the client-supplied field delivers another
    [fromUserId]. *)
Lemma relay_delivers_spoofed_fromUserId :
  data_odId (data Scenario.socketOfU1) = Some "u1"
  ∧ on_offer (mkSignal (Some "u2") (Some "sdp") (Some "u3"))
      Scenario.socketOfU1 Scenario.duoRoom
    = [mkEmit (IoTo "s2") (offer (Some "u3") (Some "sdp"))]
  ∧ on_offer (mkSignal (Some "u2") (Some "sdp") (Some "u1"))
      Scenario.socketOfU1 Scenario.duoRoom
    = [mkEmit (IoTo "s2") (offer (Some "u1") (Some "sdp"))]
  ∧ on_offer (mkSignal (Some "u2") (Some "sdp") (Some "u3"))
      Scenario.socketOfU1 Scenario.duoRoom
    ≠ on_offer (mkSignal (Some "u2") (Some "sdp") (Some "u1"))
        Scenario.socketOfU1 Scenario.duoRoom.
Proof. split_and!; [reflexivity..|discriminate]. Qed.
End Relay.

(** ** The negotiation engine *)

Section Engine.
Import JsMapFacts RoomManager Client.
Implicit Types (e : Engine) (rtc : WebRTC).

Lemma set_absent {V : Type} k (v : V) (m : JsMap.t V) :
  JsMap.get k m = None → JsMap.set k v m = m ++ [(k, v)].
Proof.
  induction m as [|[k' v'] m IH]; simpl; [done|].
  case_decide; [done|]. intros H'. by rewrite IH.
Qed.

Lemma set_set {V : Type} k (v v' : V) (m : JsMap.t V) :
  JsMap.set k v' (JsMap.set k v m) = JsMap.set k v' m.
Proof.
  induction m as [|[k0 v0] m IH]; simpl.
  - by rewrite decide_True.
  - case_decide; simpl; [by rewrite decide_True|].
    rewrite decide_False by done. by rewrite IH.
Qed.

Lemma wf_at_most_one {V : Type} k (m : JsMap.t V) :
  JsMap.wf m → (length (filter (λ kv, kv.1 = k) m) ≤ 1)%nat.
Proof.
  unfold JsMap.wf, JsMap.keys.
  induction m as [|[k' v'] m IH]; [simpl; lia|].
  rewrite fmap_cons, NoDup_cons, filter_cons. simpl fst.
  intros [Hnin Hnd]. case_decide as Hk; [|by apply IH].
  subst k'. apply get_None_keys in Hnin.
  assert (filter (λ kv : string * V, kv.1 = k) m = []) as ->; [|simpl; lia].
  clear IH Hnd. induction m as [|[k0 v0] m IH]; [done|].
  simpl in Hnin. rewrite filter_cons. simpl fst.
  destruct (decide (k = k0)) as [->|Hne]; [done|].
  rewrite decide_False by done. by apply IH.
Qed.

(** *** What each step does to the connection map and to the outbox *)

Lemma sendOffer_peerConnections t sdp e :
  peerConnections (sendOffer t sdp e) = peerConnections e.
Proof. unfold sendOffer. by destruct (isConnected e). Qed.

Lemma sendAnswer_peerConnections t sdp e :
  peerConnections (sendAnswer t sdp e) = peerConnections e.
Proof. unfold sendAnswer. by destruct (isConnected e). Qed.

Lemma sendAnswer_offers t sdp e :
  offers (emitted (sendAnswer t sdp e)) = offers (emitted e).
Proof.
  unfold sendAnswer, offers. destruct (isConnected e); [|done].
  simpl. by rewrite omap_app, app_nil_r.
Qed.

Lemma record_emitted t pc e : emitted (record t pc e) = emitted e.
Proof. unfold record. by destruct (JsMap.has _ _). Qed.

Lemma record_wf t pc e :
  JsMap.wf (peerConnections e) → JsMap.wf (peerConnections (record t pc e)).
Proof.
  unfold record. destruct (JsMap.has _ _); [|done]. simpl. apply wf_set.
Qed.

Lemma createPeerConnection_emitted t e :
  emitted (createPeerConnection t e).2 = emitted e.
Proof.
  unfold createPeerConnection.
  by destruct (JsMap.get t (peerConnections e)).
Qed.

Lemma createPeerConnection_wf t e :
  JsMap.wf (peerConnections e) →
  JsMap.wf (peerConnections (createPeerConnection t e).2).
Proof.
  unfold createPeerConnection.
  destruct (JsMap.get t (peerConnections e)); [done|]. simpl. apply wf_set.
Qed.

Lemma createOffer_wf rtc t e :
  JsMap.wf (peerConnections e) →
  JsMap.wf (peerConnections (createOffer rtc t e)).
Proof.
  intros Hwf. unfold createOffer.
  pose proof (createPeerConnection_wf t e Hwf) as Hwf1.
  destruct (createPeerConnection t e) as [pc e1]. simpl in Hwf1.
  destruct (createOffer_result rtc pc); [|by apply record_wf].
  destruct (accepts rtc _ _);
    rewrite ?sendOffer_peerConnections; by apply record_wf.
Qed.

Lemma handleOffer_wf rtc from sdp e :
  JsMap.wf (peerConnections e) →
  JsMap.wf (peerConnections (handleOffer rtc from sdp e)).
Proof.
  intros Hwf. unfold handleOffer.
  pose proof (createPeerConnection_wf from e Hwf) as Hwf1.
  destruct (createPeerConnection from e) as [pc e1]. simpl in Hwf1.
  destruct (accepts rtc pc _); [|by apply record_wf].
  destruct (createAnswer_result rtc _); [|by apply record_wf].
  destruct (accepts rtc _ _);
    rewrite ?sendAnswer_peerConnections; by apply record_wf.
Qed.

Lemma handleOffer_offers rtc from sdp e :
  offers (emitted (handleOffer rtc from sdp e)) = offers (emitted e).
Proof.
  unfold handleOffer.
  pose proof (createPeerConnection_emitted from e) as Hem.
  destruct (createPeerConnection from e) as [pc e1]. simpl in Hem.
  destruct (accepts rtc pc _); [|by rewrite record_emitted, Hem].
  destruct (createAnswer_result rtc _); [|by rewrite record_emitted, Hem].
  destruct (accepts rtc _ _);
    rewrite ?sendAnswer_offers, record_emitted, Hem; done.
Qed.

Lemma socket_on_user_joined_rest odId name e :
  peerConnections (socket_on_user_joined odId name e) = peerConnections e
  ∧ emitted (socket_on_user_joined odId name e) = emitted e
  ∧ isConnected (socket_on_user_joined odId name e) = isConnected e
  ∧ constructed (socket_on_user_joined odId name e) = constructed e
  ∧ localStream (socket_on_user_joined odId name e) = localStream e
  ∧ userId (socket_on_user_joined odId name e) = userId e.
Proof. unfold socket_on_user_joined. by destruct (find _ _). Qed.

Lemma receive_wf rtc ev e :
  JsMap.wf (peerConnections e) →
  JsMap.wf (peerConnections (receive rtc ev e)).
Proof.
  intros Hwf.
  destruct ev as [| | |msg| |from stream|to [c|]|from st
                  |ps|odId name|odId|from sdp|from sdp|from c];
    simpl; try done.
  - unfold sendIceCandidate. by destruct (isConnected e).
  - apply createOffer_wf.
    by destruct (socket_on_user_joined_rest odId name e) as [-> _].
  - unfold handleUserLeft. simpl.
    destruct (JsMap.get odId (peerConnections e)); simpl;
      [by apply wf_delete | done].
  - by apply handleOffer_wf.
  - unfold handleAnswer.
    destruct (JsMap.get from (peerConnections e)); [|done].
    by apply record_wf.
  - unfold handleIceCandidate.
    destruct (JsMap.get from (peerConnections e)); [|done].
    by apply record_wf.
Qed.

Lemma receiveAll_wf rtc evs e :
  JsMap.wf (peerConnections e) →
  JsMap.wf (peerConnections (receiveAll rtc evs e)).
Proof.
  unfold receiveAll. revert e.
  induction evs as [|ev evs IH]; intros e Hwf; [done|].
  simpl. by apply IH, receive_wf.
Qed.

(** An engine sends at most one offer for one [user-joined] event, and
    only to the identity that joined. *)
Lemma createOffer_at_most_one_offer rtc t e :
  emitted (createOffer rtc t e) = emitted e
  ∨ ∃ sdp, emitted (createOffer rtc t e)
           = emitted e ++ [offer t sdp (userId e)].
Proof.
  unfold createOffer.
  pose proof (createPeerConnection_emitted t e) as Hem.
  assert (userId (createPeerConnection t e).2 = userId e) as Hid.
  { unfold createPeerConnection.
    by destruct (JsMap.get t (peerConnections e)). }
  destruct (createPeerConnection t e) as [pc e1]. simpl in Hem, Hid.
  destruct (createOffer_result rtc pc) as [sdp|];
    [|left; by rewrite record_emitted].
  destruct (accepts rtc _ _); [|left; by rewrite record_emitted].
  unfold sendOffer.
  assert (userId (record t (call (setLocalDescription sdp_offer sdp)
                              (call rtc_createOffer pc)) e1) = userId e)
    as Hid'.
  { unfold record. by destruct (JsMap.has _ _). }
  destruct (isConnected _); [|left; by rewrite record_emitted].
  right. exists sdp. simpl. by rewrite record_emitted, Hem, Hid'.
Qed.

(** The offer path when the identity is new to the engine and the browser
    cooperates. *)
Lemma createOffer_fresh rtc b e sdp :
  let pc0 := {| pc_id := constructed e;
                pc_calls := addTrack <$> default [] (localStream e) |} in
  isConnected e = true →
  JsMap.get b (peerConnections e) = None →
  createOffer_result rtc pc0 = Some sdp →
  accepts rtc (call rtc_createOffer pc0)
    (setLocalDescription sdp_offer sdp) = true →
  createOffer rtc b e
  = emit (offer b sdp (userId e))
      (setPeerConnections
         (peerConnections e
          ++ [(b, call (setLocalDescription sdp_offer sdp)
                    (call rtc_createOffer pc0))])
         (S (constructed e)) e).
Proof.
  intros pc0 Hconn Hnone Hoffer Hacc.
  unfold createOffer, createPeerConnection. rewrite Hnone. fold pc0.
  rewrite Hoffer, Hacc. unfold record, JsMap.has. simpl.
  rewrite get_set_eq. unfold sendOffer. simpl. rewrite Hconn.
  by rewrite set_set, set_absent.
Qed.

(** C8. [createPeerConnection] is idempotent: when a connection for the
    identity exists it is returned and the engine, its connection map
    included, is as before, so a second call gives what the first gave; and
    an engine holds at most one connection per remote identity, after any
    sequence of incoming events. *)
Theorem createPeerConnection_idempotent (e : Engine) (remoteUserId : string) :
  (∀ pc, JsMap.get remoteUserId (peerConnections e) = Some pc →
         createPeerConnection remoteUserId e = (pc, e))
  ∧ createPeerConnection remoteUserId (createPeerConnection remoteUserId e).2
    = createPeerConnection remoteUserId e
  ∧ (JsMap.wf (peerConnections e) →
     ∀ rtc evs id,
       (length (connectionsFor id
                  (createPeerConnection remoteUserId
                     (receiveAll rtc evs e)).2) ≤ 1)%nat).
Proof.
  split_and!.
  - intros pc Hpc. unfold createPeerConnection. by rewrite Hpc.
  - unfold createPeerConnection at 2 3.
    destruct (JsMap.get remoteUserId (peerConnections e)) as [pc|] eqn:Hg.
    + simpl. unfold createPeerConnection. by rewrite Hg.
    + simpl. unfold createPeerConnection. simpl. by rewrite get_set_eq.
  - intros Hwf rtc evs id. unfold connectionsFor.
    by apply wf_at_most_one, createPeerConnection_wf, receiveAll_wf.
Qed.

Lemma createPeerConnection_idempotent_witness :
  let e := receive Scenario.browser (in_user_joined "u2" "User u2")
             (Scenario.engine "u1") in
  createPeerConnection "u2" e
  = ({| pc_id := 0;
        pc_calls := [addTrack "audio"; addTrack "video"; rtc_createOffer;
                     setLocalDescription sdp_offer "offer-sdp"] |}, e)
  ∧ (length (connectionsFor "u2"
               (createPeerConnection "u2"
                  (receiveAll Scenario.browser
                     [in_offer "u2" "glare"; in_user_joined "u2" "User u2"]
                     e)).2) ≤ 1)%nat.
Proof.
  intros e.
  destruct (createPeerConnection_idempotent e "u2") as (Hex & _ & Hone).
  split.
  - apply Hex. reflexivity.
  - apply Hone. unfold JsMap.wf. simpl. apply NoDup_singleton.
Defined.

(** C7. A is in the room, connected, and holds no connection for B; the
    browser produces an offer and accepts it as local description. On the
    [user-joined] event for B, A's engine constructs exactly one peer
    connection, stores it for B with [createOffer] and
    [setLocalDescription(offer)] called on it (the initiator side), and
    emits exactly one message, the offer to B. B's engine, on its
    [room-joined] snapshot, constructs nothing and emits nothing, and on
    A's offer it emits no offer either. *)
Theorem existing_member_offers_newcomer_does_not
    (rtc rtc' : WebRTC) (A B : Engine) (nameB sdp : string)
    (snapshot : list ParticipantInfo) :
  let b := userId B in
  let pc0 := {| pc_id := constructed A;
                pc_calls := addTrack <$> default [] (localStream A) |} in
  isConnected A = true →
  JsMap.get b (peerConnections A) = None →
  createOffer_result rtc pc0 = Some sdp →
  accepts rtc (call rtc_createOffer pc0)
    (setLocalDescription sdp_offer sdp) = true →
  let A' := receive rtc (in_user_joined b nameB) A in
  let B' := receive rtc' (in_room_joined snapshot) B in
  constructed A' = S (constructed A)
  ∧ peerConnections A'
    = peerConnections A
      ++ [(b, call (setLocalDescription sdp_offer sdp)
                (call rtc_createOffer pc0))]
  ∧ emitted A' = emitted A ++ [offer b sdp (userId A)]
  ∧ emitted B' = emitted B
  ∧ peerConnections B' = peerConnections B
  ∧ constructed B' = constructed B
  ∧ offers (emitted (receive rtc' (in_offer (userId A) sdp) B'))
    = offers (emitted B).
Proof.
  intros b pc0 Hconn Hnone Hoffer Hacc A' B'.
  assert (emitted B' = emitted B) as HB by done.
  split_and!; [..|done|done|done|by rewrite <- HB; apply handleOffer_offers].
  all: subst A'; simpl; unfold handleUserJoined.
  all: destruct (socket_on_user_joined_rest b nameB A)
         as (Hpcs & Hem & Hic & Hn & Hls & Hid).
  all: rewrite (createOffer_fresh rtc b _ sdp);
         rewrite ?Hpcs, ?Hn, ?Hls, ?Hic; try done.
  simpl. by rewrite Hem, Hid.
Qed.

Lemma existing_member_offers_newcomer_does_not_witness :
  let A := Scenario.engine "u1" in
  let B := Scenario.engine "u2" in
  let A' := receive Scenario.browser (in_user_joined "u2" "User u2") A in
  let B' := receive Scenario.browser
              (in_room_joined [mkInfo "u1" "User u1"; mkInfo "u2" "User u2"])
              B in
  constructed A' = 1
  ∧ peerConnections A'
    = [("u2", {| pc_id := 0;
                 pc_calls := [addTrack "audio"; addTrack "video";
                              rtc_createOffer;
                              setLocalDescription sdp_offer "offer-sdp"] |})]
  ∧ emitted A' = [offer "u2" "offer-sdp" "u1"]
  ∧ emitted B' = []
  ∧ peerConnections B' = []
  ∧ constructed B' = 0
  ∧ offers (emitted (receive Scenario.browser
                       (in_offer "u1" "offer-sdp") B')) = [].
Proof.
  intros A B A' B'.
  apply (existing_member_offers_newcomer_does_not
           Scenario.browser Scenario.browser A B "User u2" "offer-sdp"
           [mkInfo "u1" "User u1"; mkInfo "u2" "User u2"]);
    reflexivity.
Defined.
End Engine.

(** ** More on [JsMap] *)

Section JsMapEntries.
Import JsMap JsMapFacts.
Context {V : Type}.
Implicit Types (m : JsMap.t V) (k : string) (v : V).

Lemma get_elem k v m : get k m = Some v → (k, v) ∈ m.
Proof.
  induction m as [|[k' v'] m IH]; simpl; [done|].
  destruct (decide (k = k')) as [->|Hk].
  - intros [= ->]. apply list_elem_of_here.
  - intros Hg. by apply list_elem_of_further, IH.
Qed.

Lemma elem_get k v m : wf m → (k, v) ∈ m → get k m = Some v.
Proof.
  unfold wf, keys. induction m as [|[k' v'] m IH]; [by intros _ ?%elem_of_nil|].
  rewrite fmap_cons, NoDup_cons. simpl. intros [Hnin Hnd] Hin.
  apply elem_of_cons in Hin as [[= <- <-]|Hin].
  - by rewrite decide_True.
  - rewrite decide_False; [by apply IH|].
    intros ->. apply Hnin. apply list_elem_of_fmap. by exists (k', v).
Qed.

Lemma delete_set_absent k v m : get k m = None → delete k (set k v m) = m.
Proof.
  intros Hg. rewrite set_absent by done. unfold delete.
  rewrite filter_app, filter_cons, decide_False by (simpl; tauto).
  rewrite filter_nil, app_nil_r. by apply delete_absent.
Qed.

Lemma filter_all (P : string * V → Prop) `{!∀ x, Decision (P x)} m :
  Forall P m → filter P m = m.
Proof.
  induction 1 as [|x m HP _ IH]; [done|].
  by rewrite filter_cons, decide_True, IH.
Qed.
End JsMapEntries.

(** ** More on the registry *)

Section RegistryExtras.
Import RoomManager History JsMapFacts Invariants.
Implicit Types (rooms : Rooms) (p : Participant).

Lemma Consistent_entries rooms :
  Consistent rooms → Forall (λ kv, RoomOk kv.2) rooms.
Proof.
  intros [Hwf Hok]. apply Forall_forall. intros [k room] Hin.
  apply (Hok k). by apply elem_get.
Qed.

(** X1. Joining and leaving cancel: when the identity is new to the room and
    the room has space, a join followed by the leave of the same identity
    gives back the registry as it was, the lazily created room included. *)
Theorem leave_after_join_restores_registry
    (r : string) (p : Participant) (now : Z) (rooms : Rooms) :
  Reachable rooms →
  JsMap.get (odId p) (participantsOf r rooms) = None →
  isFull r rooms = false →
  removeParticipant r (odId p) (addParticipant r p now rooms).2 = rooms.
Proof.
  intros Hreach Hnew Hfull. apply Reachable_consistent in Hreach as Hc.
  rewrite addParticipant_unfold, Hfull. simpl.
  unfold removeParticipant. rewrite get_set_eq. simpl.
  rewrite delete_set_absent by done.
  unfold getOrCreateRoom, participantsOf in *.
  destruct (JsMap.get r rooms) as [room|] eqn:Hg; simpl.
  - destruct Hc as [_ Hok]. destruct (Hok _ _ Hg) as (_ & Hne & _).
    rewrite bool_decide_eq_false_2 by by destruct (participants room).
    rewrite set_set. apply set_same. rewrite Hg. by destruct room.
  - rewrite !set_set. by apply delete_set_absent.
Qed.

Lemma leave_after_join_restores_registry_witness :
  removeParticipant Scenario.room "u3"
    (addParticipant Scenario.room (Scenario.user "u3" "s3") 9
       Scenario.duoRoom).2
  = Scenario.duoRoom
  ∧ removeParticipant "lobby" "u3"
      (addParticipant "lobby" (Scenario.user "u3" "s3") 9
         Scenario.duoRoom).2
    = Scenario.duoRoom.
Proof.
  split.
  - apply (leave_after_join_restores_registry Scenario.room
             (Scenario.user "u3" "s3") 9 Scenario.duoRoom);
      [|reflexivity..].
    exists [Join Scenario.room (Scenario.user "u1" "s1") 0;
            Join Scenario.room (Scenario.user "u2" "s2") 1]. reflexivity.
  - apply (leave_after_join_restores_registry "lobby"
             (Scenario.user "u3" "s3") 9 Scenario.duoRoom);
      [|reflexivity..].
    exists [Join Scenario.room (Scenario.user "u1" "s1") 0;
            Join Scenario.room (Scenario.user "u2" "s2") 1]. reflexivity.
Defined.

(** *** Looking a participant up by its connection *)

Lemma findParticipantBySocketId_Some sid (ps : JsMap.t Participant) i :
  findParticipantBySocketId sid ps = Some i →
  ∃ p, (i, p) ∈ ps ∧ socketId p = sid.
Proof.
  induction ps as [|[k p] ps IH]; simpl; [done|].
  case_decide as Hs.
  - intros [= <-]. exists p. split; [apply list_elem_of_here | done].
  - intros (q & Hin & Hq)%IH. exists q. split; [|done].
    by apply list_elem_of_further.
Qed.

Lemma findParticipantBySocketId_None sid (ps : JsMap.t Participant) i p :
  findParticipantBySocketId sid ps = None → (i, p) ∈ ps → socketId p ≠ sid.
Proof.
  induction ps as [|[k q] ps IH]; simpl; [by intros _ ?%elem_of_nil|].
  case_decide as Hs; [done|].
  intros Hnone [[= <- <-]|Hin]%elem_of_cons; [done|]. by apply IH.
Qed.

Lemma findBySocketId_Some sid rooms r i :
  findBySocketId sid rooms = Some (r, i) →
  ∃ room p, (r, room) ∈ rooms ∧ (i, p) ∈ participants room
            ∧ socketId p = sid.
Proof.
  induction rooms as [|[k room] rooms IH]; simpl; [done|].
  destruct (findParticipantBySocketId sid (participants room)) as [j|] eqn:Hf.
  - intros [= <- <-].
    apply findParticipantBySocketId_Some in Hf as (p & Hin & Hp).
    exists room, p. split_and!; [apply list_elem_of_here | done..].
  - intros (room' & p & Hin & Hrest)%IH. exists room', p.
    split; [by apply list_elem_of_further | done].
Qed.

Lemma findBySocketId_None sid rooms r room i p :
  findBySocketId sid rooms = None →
  (r, room) ∈ rooms → (i, p) ∈ participants room → socketId p ≠ sid.
Proof.
  induction rooms as [|[k room'] rooms IH]; simpl;
    [by intros _ ?%elem_of_nil|].
  destruct (findParticipantBySocketId sid (participants room')) as [j|] eqn:Hf;
    [done|].
  intros Hnone [[= <- <-]|Hin]%elem_of_cons Hp.
  - by eapply findParticipantBySocketId_None.
  - by apply IH.
Qed.

Lemma handleOf_elem r i rooms s :
  handleOf r i rooms = Some s →
  ∃ room p, (r, room) ∈ rooms ∧ (i, p) ∈ participants room ∧ socketId p = s.
Proof.
  unfold handleOf, participantsOf.
  destruct (JsMap.get r rooms) as [room|] eqn:Hr; [|done].
  destruct (JsMap.get i (participants room)) as [p|] eqn:Hi; [|done].
  intros [= <-]. exists room, p. split_and!; [by apply get_elem..|done].
Qed.

Lemma elem_handleOf r i rooms room p :
  Consistent rooms →
  (r, room) ∈ rooms → (i, p) ∈ participants room →
  handleOf r i rooms = Some (socketId p).
Proof.
  intros [Hwf Hok] Hr Hi. unfold handleOf, participantsOf.
  apply elem_get in Hr; [|done]. rewrite Hr.
  destruct (Hok _ _ Hr) as (Hwfp & _).
  by rewrite (elem_get i p).
Qed.

Lemma findBySocketId_holder sid rooms r i :
  Consistent rooms →
  findBySocketId sid rooms = Some (r, i) → handleOf r i rooms = Some sid.
Proof.
  intros Hc (room & p & Hr & Hi & <-)%findBySocketId_Some.
  by eapply elem_handleOf.
Qed.

Lemma findBySocketId_no_holder sid rooms :
  Consistent rooms →
  findBySocketId sid rooms = None ↔ ∀ r i, handleOf r i rooms ≠ Some sid.
Proof.
  intros Hc. split.
  - intros Hnone r i (room & p & Hr & Hi & Hp)%handleOf_elem.
    by eapply findBySocketId_None.
  - intros Hno. destruct (findBySocketId sid rooms) as [[r i]|] eqn:Hf;
      [|done].
    by apply findBySocketId_holder, Hno in Hf.
Qed.

Lemma handleOf_remove r i r' i' rooms :
  handleOf r' i' (removeParticipant r i rooms) =
  if decide (r = r' ∧ i = i') then None else handleOf r' i' rooms.
Proof.
  unfold handleOf. rewrite participantsOf_remove.
  destruct (decide (r = r')) as [->|Hr].
  - rewrite get_delete. destruct (decide (i = i')) as [->|Hi].
    + by rewrite decide_True.
    + by rewrite decide_False by tauto.
  - by rewrite decide_False by tauto.
Qed.

(** X2. When a connection closes, the disconnect handler scans the registry
    for a participant stored with that connection. If there is none, the
    registry is untouched and nobody is notified; otherwise exactly one
    identity that was stored with this very connection is removed and one
    [user-left] for it goes to its room. *)
Theorem disconnect_removes_a_holder_of_the_connection
    (socket : Server.Socket) (rooms : Rooms) :
  Reachable rooms →
  (Server.on_disconnect socket rooms = (rooms, [])
   ∧ ∀ r i, handleOf r i rooms ≠ Some (Server.socket_id socket))
  ∨ ∃ r i,
      Server.on_disconnect socket rooms
      = (removeParticipant r i rooms,
         [Server.mkEmit (Server.SocketTo r (Server.socket_id socket))
            (Server.user_left i)])
      ∧ handleOf r i rooms = Some (Server.socket_id socket)
      ∧ handleOf r i (removeParticipant r i rooms) = None
      ∧ ∀ r' i', (r', i') ≠ (r, i) →
          handleOf r' i' (removeParticipant r i rooms) = handleOf r' i' rooms.
Proof.
  intros Hc%Reachable_consistent.
  unfold Server.on_disconnect, removeParticipantBySocketId.
  destruct (findBySocketId (Server.socket_id socket) rooms)
    as [[r i]|] eqn:Hf.
  - right. exists r, i. split_and!; [done| | |].
    + by apply findBySocketId_holder.
    + by rewrite handleOf_remove, decide_True.
    + intros r' i' Hne. rewrite handleOf_remove, decide_False; [done|].
      intros [-> ->]. done.
  - left. split; [done|]. by apply findBySocketId_no_holder.
Qed.

Lemma disconnect_removes_a_holder_of_the_connection_witness :
  (Server.on_disconnect (Scenario.fresh "s9") Scenario.duoRoom
   = (Scenario.duoRoom, [])
   ∧ ∀ r i, handleOf r i Scenario.duoRoom ≠ Some "s9")
  ∨ ∃ r i,
      Server.on_disconnect (Scenario.fresh "s9") Scenario.duoRoom
      = (removeParticipant r i Scenario.duoRoom,
         [Server.mkEmit (Server.SocketTo r "s9") (Server.user_left i)])
      ∧ handleOf r i Scenario.duoRoom = Some "s9"
      ∧ handleOf r i (removeParticipant r i Scenario.duoRoom) = None
      ∧ ∀ r' i', (r', i') ≠ (r, i) →
          handleOf r' i' (removeParticipant r i Scenario.duoRoom)
          = handleOf r' i' Scenario.duoRoom.
Proof.
  apply (disconnect_removes_a_holder_of_the_connection
           (Scenario.fresh "s9") Scenario.duoRoom).
  exists [Join Scenario.room (Scenario.user "u1" "s1") 0;
          Join Scenario.room (Scenario.user "u2" "s2") 1]. reflexivity.
Defined.

(** X3. A reconnection survives the old connection's disconnect: once a join
    has stored an identity with its connection, the disconnect of any other
    connection leaves that identity registered with the same handle. *)
Theorem stale_disconnect_keeps_reconnected_identity
    (r sid : string) (p : Participant) (now : Z) (rooms : Rooms) :
  Reachable rooms →
  isFull r rooms = false →
  sid ≠ socketId p →
  handleOf r (odId p)
    (removeParticipantBySocketId sid (addParticipant r p now rooms).2).2
  = Some (socketId p).
Proof.
  intros Hc%Reachable_consistent Hfull Hsid.
  pose proof (addParticipant_consistent r p now rooms Hc) as Hc1.
  assert (handleOf r (odId p) (addParticipant r p now rooms).2
          = Some (socketId p)) as Hh.
  { unfold handleOf.
    by rewrite participantsOf_add, decide_True, Hfull, get_set_eq. }
  rewrite findBySocketId_removeParticipant.
  unfold removeParticipantBySocketId.
  destruct (findBySocketId sid _) as [[r' i']|] eqn:Hf; simpl; [|done].
  apply findBySocketId_holder in Hf; [|done].
  rewrite handleOf_remove, decide_False; [done|].
  intros [-> ->]. congruence.
Qed.

Lemma stale_disconnect_keeps_reconnected_identity_witness :
  handleOf Scenario.room "u2"
    (removeParticipantBySocketId "s2"
       (addParticipant Scenario.room (Scenario.user "u2" "s3") 2
          Scenario.duoRoom).2).2
  = Some "s3".
Proof.
  apply (stale_disconnect_keeps_reconnected_identity Scenario.room "s2"
           (Scenario.user "u2" "s3") 2 Scenario.duoRoom);
    [|reflexivity|discriminate].
  exists [Join Scenario.room (Scenario.user "u1" "s1") 0;
          Join Scenario.room (Scenario.user "u2" "s2") 1]. reflexivity.
Defined.

(** X4. After an explicit leave the later close of the same connection is
    silent: when the connection was stored for one identity only and that
    identity has been removed, the disconnect handler changes nothing and
    notifies nobody. *)
Theorem disconnect_after_leave_is_silent
    (socket : Server.Socket) (r i : string) (rooms : Rooms) :
  Reachable rooms →
  (∀ r' i', handleOf r' i' rooms = Some (Server.socket_id socket) →
            r' = r ∧ i' = i) →
  Server.on_disconnect socket (removeParticipant r i rooms)
  = (removeParticipant r i rooms, []).
Proof.
  intros Hc%Reachable_consistent Honly.
  pose proof (removeParticipant_consistent r i rooms Hc) as Hc1.
  unfold Server.on_disconnect, removeParticipantBySocketId.
  assert (findBySocketId (Server.socket_id socket)
            (removeParticipant r i rooms) = None) as ->; [|done].
  apply findBySocketId_no_holder; [done|].
  intros r' i'. rewrite handleOf_remove. case_decide as Hri; [done|].
  intros Hh. apply Honly in Hh as [-> ->]. by apply Hri.
Qed.

Lemma disconnect_after_leave_is_silent_witness :
  Server.on_disconnect Invariants.socketOfU2
    (removeParticipant Scenario.room "u2" Scenario.duoRoom)
  = (removeParticipant Scenario.room "u2" Scenario.duoRoom, []).
Proof.
  apply (disconnect_after_leave_is_silent Invariants.socketOfU2
           Scenario.room "u2" Scenario.duoRoom).
  - exists [Join Scenario.room (Scenario.user "u1" "s1") 0;
            Join Scenario.room (Scenario.user "u2" "s2") 1]. reflexivity.
  - intros r' i'. unfold handleOf, participantsOf.
    set (d := Scenario.duoRoom). vm_compute in d. subst d. simpl.
    destruct (decide (r' = "abcd1234")) as [->|]; [|done]. simpl.
    destruct (decide (i' = "u1")) as [->|]; [done|].
    destruct (decide (i' = "u2")) as [->|]; done.
Defined.

(** *** Statistics and the sweep *)

Lemma totalParticipants_bounds (l : list Room) (acc : nat) :
  Forall RoomOk l →
  (acc + length l
   ≤ foldl (λ total room, total + JsMap.size (participants room)) acc l
   ≤ acc + MAX_PARTICIPANTS * length l)%nat.
Proof.
  intros Hl. revert acc.
  induction Hl as [|room l (_ & Hne & Hsz) _ IH]; intros acc; simpl; [lia|].
  specialize (IH (acc + JsMap.size (participants room))%nat).
  assert (1 ≤ JsMap.size (participants room))%nat
    by (destruct (participants room); [done | simpl; lia]).
  unfold MAX_PARTICIPANTS in *. lia.
Qed.

(** X5. In every registry the handlers can reach, each room counted by
    [getStats] has between one and four participants: the participant total
    lies between the room count and four times the room count. *)
Theorem stats_total_between_rooms_and_capacity (rooms : Rooms) :
  Reachable rooms →
  (roomCount (getStats rooms) ≤ totalParticipants (getStats rooms)
   ≤ MAX_PARTICIPANTS * roomCount (getStats rooms))%nat.
Proof.
  intros Hc%Reachable_consistent. apply Consistent_entries in Hc.
  pose proof (totalParticipants_bounds (JsMap.values rooms) 0) as Hb.
  unfold getStats. simpl. unfold JsMap.values, JsMap.size in *.
  rewrite length_fmap in Hb. apply Hb.
  by apply Forall_fmap.
Qed.

Lemma stats_total_between_rooms_and_capacity_witness :
  (roomCount (getStats Invariants.twoRooms)
   ≤ totalParticipants (getStats Invariants.twoRooms)
   ≤ MAX_PARTICIPANTS * roomCount (getStats Invariants.twoRooms))%nat
  ∧ roomCount (getStats Invariants.twoRooms) = 2
  ∧ totalParticipants (getStats Invariants.twoRooms) = 3.
Proof.
  split; [|split; reflexivity].
  apply (stats_total_between_rooms_and_capacity Invariants.twoRooms).
  exists [Join Scenario.room (Scenario.user "u1" "s1") 0;
          Join "other" (Scenario.user "u5" "s5") 1;
          Join Scenario.room (Scenario.user "u2" "s2") 2]. reflexivity.
Defined.

(** X6. The periodic sweep finds nothing to delete in a registry the
    handlers can reach, whatever the clock says: a room is deleted the moment
    its last participant is removed, so no empty room is left for it. *)
Theorem sweep_keeps_reachable_registry (now : Z) (rooms : Rooms) :
  Reachable rooms → cleanupEmptyRooms now rooms = rooms.
Proof.
  intros Hc%Reachable_consistent. apply Consistent_entries in Hc.
  unfold cleanupEmptyRooms. apply filter_all.
  eapply Forall_impl; [exact Hc|].
  intros [k room] (_ & Hne & _) [Hsz _]. simpl in *.
  by destruct (participants room).
Qed.

Lemma sweep_keeps_reachable_registry_witness :
  cleanupEmptyRooms 999999999 Invariants.twoRooms = Invariants.twoRooms.
Proof.
  apply (sweep_keeps_reachable_registry 999999999 Invariants.twoRooms).
  exists [Join Scenario.room (Scenario.user "u1" "s1") 0;
          Join "other" (Scenario.user "u5" "s5") 1;
          Join Scenario.room (Scenario.user "u2" "s2") 2]. reflexivity.
Defined.

(** X7. The sweep, on any registry with unique room ids, keeps a room exactly
    when it has a participant or is at most [MAX_AGE] old; a room that is
    empty and exactly one hour old is still kept. *)
Theorem sweep_keeps_occupied_or_young (now : Z) (r : string) (rooms : Rooms) :
  JsMap.wf rooms →
  JsMap.get r (cleanupEmptyRooms now rooms) =
  match JsMap.get r rooms with
  | Some room =>
      if decide (participants room = [] ∧ (now - createdAt room > 3600000)%Z)
      then None else Some room
  | None => None
  end.
Proof.
  intros Hwf. unfold cleanupEmptyRooms. rewrite get_filter_wf by done.
  destruct (JsMap.get r rooms) as [room|]; [|done]. simpl.
  unfold MAX_AGE. change (60 * 60 * 1000)%Z with 3600000%Z.
  destruct (participants room) as [|kv ps] eqn:Hps; simpl.
  - repeat case_decide; try done; tauto.
  - repeat case_decide; try done; naive_solver.
Qed.

Lemma sweep_keeps_occupied_or_young_witness :
  JsMap.get "idle"
    (cleanupEmptyRooms 3600000 [("idle", mkRoom "idle" [] 0)])
  = Some (mkRoom "idle" [] 0)
  ∧ JsMap.get "idle"
      (cleanupEmptyRooms 3600001 [("idle", mkRoom "idle" [] 0)])
    = None.
Proof.
  split.
  - rewrite (sweep_keeps_occupied_or_young 3600000 "idle"
               [("idle", mkRoom "idle" [] 0)]); [reflexivity|].
    apply NoDup_singleton.
  - rewrite (sweep_keeps_occupied_or_young 3600001 "idle"
               [("idle", mkRoom "idle" [] 0)]); [reflexivity|].
    apply NoDup_singleton.
Defined.

(** X8. A room keeps the timestamp of the join that created it: after a join
    the room exists, stamped with the clock of this join when the join
    created it and with its earlier timestamp otherwise, also when the join
    is refused. *)
Theorem join_stamps_room_once
    (r : string) (p : Participant) (now : Z) (rooms : Rooms) :
  createdAt <$> JsMap.get r (addParticipant r p now rooms).2
  = Some (match JsMap.get r rooms with
          | Some room => createdAt room
          | None => now
          end)
  ∧ id <$> JsMap.get r (addParticipant r p now rooms).2
    = Some (match JsMap.get r rooms with
            | Some room => id room
            | None => r
            end).
Proof.
  rewrite addParticipant_unfold.
  destruct (isFull r rooms) eqn:Hfull; simpl.
  - unfold isFull, participantsOf in Hfull.
    by destruct (JsMap.get r rooms).
  - rewrite get_set_eq. simpl. unfold getOrCreateRoom.
    by destruct (JsMap.get r rooms).
Qed.

(** *** Rooms and participants are stored under their own ids *)

Lemma Forall_set {V : Type} (P : string * V → Prop) k v (m : JsMap.t V) :
  Forall P m → P (k, v) → Forall P (JsMap.set k v m).
Proof.
  intros Hm Hkv. induction Hm as [|[k' v'] m Hx Hm IH]; simpl.
  - by apply Forall_singleton.
  - case_decide; apply Forall_cons; auto.
Qed.

Lemma Forall_filter_keep {A : Type} (P Q : A → Prop) `{!∀ x, Decision (Q x)}
    (l : list A) :
  Forall P l → Forall P (filter Q l).
Proof.
  intros Hl. apply Forall_forall. intros x [_ Hin]%list_elem_of_filter.
  by eapply Forall_forall in Hl.
Qed.

Lemma Forall_get {V : Type} (P : string * V → Prop) k v (m : JsMap.t V) :
  Forall P m → JsMap.get k m = Some v → P (k, v).
Proof.
  intros Hm Hg%get_elem. by eapply Forall_forall in Hm.
Qed.

Lemma keyed_participantsOf r rooms :
  Keyed rooms → keyedParticipants (participantsOf r rooms).
Proof.
  intros Hk. unfold participantsOf.
  destruct (JsMap.get r rooms) as [room|] eqn:Hg; [|apply Forall_nil_2].
  by apply (Forall_get _ _ _ _ Hk) in Hg as [_ ?].
Qed.

Lemma getOrCreateRoom_keyed r now rooms :
  Keyed rooms →
  Keyed (getOrCreateRoom r now rooms).2
  ∧ id (getOrCreateRoom r now rooms).1 = r.
Proof.
  intros Hk. unfold getOrCreateRoom.
  destruct (JsMap.get r rooms) as [room|] eqn:Hg; simpl.
  - split; [done|]. by apply (Forall_get _ _ _ _ Hk) in Hg as [? _].
  - split; [|done]. apply Forall_set; [done|]. split; [done|].
    apply Forall_nil_2.
Qed.

Lemma addParticipant_keyed r p now rooms :
  Keyed rooms → Keyed (addParticipant r p now rooms).2.
Proof.
  intros Hk. rewrite addParticipant_unfold.
  destruct (isFull r rooms); simpl; [done|].
  destruct (getOrCreateRoom_keyed r now rooms Hk) as [Hk1 Hid].
  apply Forall_set; [done|]. simpl. split; [done|].
  apply Forall_set; [by apply keyed_participantsOf | done].
Qed.

Lemma removeParticipant_keyed r i rooms :
  Keyed rooms → Keyed (removeParticipant r i rooms).
Proof.
  intros Hk. unfold removeParticipant.
  destruct (JsMap.get r rooms) as [room|] eqn:Hg; [|done].
  apply (Forall_get _ _ _ _ Hk) in Hg as [Hid Hps]. simpl in *.
  assert (Keyed (JsMap.set r
            (with_participants room (JsMap.delete i (participants room)))
            rooms)) as Hk1.
  { apply Forall_set; [done|]. simpl. split; [done|].
    by apply Forall_filter_keep. }
  case_bool_decide; [by apply Forall_filter_keep | done].
Qed.

Lemma exec_keyed op rooms : Keyed rooms → Keyed (exec op rooms).2.
Proof.
  intros Hk. destruct op as [r p now|r i|sid|now]; simpl.
  - pose proof (addParticipant_keyed r p now rooms Hk).
    by destruct (addParticipant r p now rooms).
  - by apply removeParticipant_keyed.
  - pose proof (findBySocketId_removeParticipant sid rooms) as Hr.
    destruct (removeParticipantBySocketId sid rooms) as [[[r i]|] rooms'];
      simpl in *; subst rooms'; [|done].
    by apply removeParticipant_keyed.
  - by apply Forall_filter_keep.
Qed.

Lemma run_keyed ops rooms : Keyed rooms → Keyed (run ops rooms).2.
Proof.
  revert rooms. induction ops as [|op ops IH]; intros rooms Hk; [done|].
  rewrite run_cons. simpl. by apply IH, exec_keyed.
Qed.

Lemma Reachable_keyed rooms : Reachable rooms → Keyed rooms.
Proof. intros [ops <-]. apply run_keyed, Forall_nil_2. Qed.

Lemma keyed_ids (ps : JsMap.t Participant) :
  keyedParticipants ps → ids (toInfo <$> JsMap.values ps) = JsMap.keys ps.
Proof.
  unfold ids, JsMap.values, JsMap.keys.
  induction 1 as [|[k p] ps Hkp _ IH]; [done|].
  rewrite !fmap_cons. simpl in *. by rewrite Hkp, IH.
Qed.

(** X9. In every reachable registry the participant list of a room names
    each member once: it has no repeated identity, at most four entries, and
    an identity is listed exactly when a participant is stored for it. *)
Theorem participants_list_names_each_member_once (r : string) (rooms : Rooms) :
  Reachable rooms →
  NoDup (ids (getParticipantsList r rooms))
  ∧ (length (getParticipantsList r rooms) ≤ 4)%nat
  ∧ ∀ i, i ∈ ids (getParticipantsList r rooms)
         ↔ is_Some (JsMap.get i (participantsOf r rooms)).
Proof.
  intros Hreach.
  pose proof (Reachable_consistent _ Hreach) as Hc.
  pose proof (Reachable_keyed _ Hreach) as Hk.
  destruct (participantsOf_ok r rooms Hc) as [Hwf Hsz].
  rewrite getParticipantsList_participantsOf.
  change (λ p, {| info_odId := odId p; info_name := name p |}) with toInfo.
  rewrite keyed_ids by by apply keyed_participantsOf.
  split_and!.
  - done.
  - unfold JsMap.values. rewrite !length_fmap. apply Hsz.
  - intros i. by rewrite get_Some_keys.
Qed.

Lemma participants_list_names_each_member_once_witness :
  NoDup (ids (getParticipantsList Scenario.room Invariants.reconnected))
  ∧ (length (getParticipantsList Scenario.room Invariants.reconnected) ≤ 4)%nat
  ∧ ∀ i, i ∈ ids (getParticipantsList Scenario.room Invariants.reconnected)
         ↔ is_Some (JsMap.get i
                      (participantsOf Scenario.room Invariants.reconnected)).
Proof.
  apply (participants_list_names_each_member_once Scenario.room
           Invariants.reconnected).
  exists [Join Scenario.room (Scenario.user "u1" "s1") 0;
          Join Scenario.room (Scenario.user "u2" "s2") 1;
          Join Scenario.room (Scenario.user "u2" "s3") 2]. reflexivity.
Defined.
End RegistryExtras.

(** ** More on the join, leave and relay handlers *)

Section HandlerExtras.
Import RoomManager History JsMapFacts Server.

Lemma getParticipantSocketId_remove_ne r u t rooms :
  t ≠ u →
  getParticipantSocketId r t (removeParticipant r u rooms)
  = getParticipantSocketId r t rooms.
Proof.
  intros Hne. rewrite !getParticipantSocketId_participantsOf.
  by rewrite participantsOf_remove, decide_True, get_delete_ne.
Qed.

Lemma relay_joined mk r t b f sid socket rooms :
  data_roomId (data socket) = Some r → r ≠ "" →
  getParticipantSocketId r t rooms = Some sid →
  relay mk (mkSignal (Some t) b f) socket rooms
  = [mkEmit (IoTo sid) (mk f b)].
Proof.
  intros Hr Hne Hs. unfold relay. rewrite Hr. simpl.
  rewrite bool_decide_eq_false_2 by done. simpl. by rewrite Hs.
Qed.

(** X10. For a [join-room] request that carries a payload object and is not
    answered with [room-joined] (a missing room id or user id, or a full
    room), the connection and the registry are left exactly as they were,
    whatever the connection had joined before. For a connection whose
    [socket.data] names no room, an offer, answer or candidate that carries
    a payload object makes the server emit nothing; this stays so after a
    refused join. *)
Theorem refused_join_changes_nothing_and_cannot_relay :
  (∀ (payload : JoinRoom) (now : Z) (socket : Socket) (rooms : Rooms),
      (∀ ps, mkEmit (SocketEmit (socket_id socket)) (room_joined ps)
             ∉ (on_join_room payload now socket rooms).2) →
      join_room_listener (payload_object payload) now socket rooms
      = returned (socket, rooms, (on_join_room payload now socket rooms).2))
  ∧ (∀ (socket : Socket) (rooms : Rooms)
       (mk : option string → option string → ServerEvent) (sig : Signal),
      data_roomId (data socket) = None →
      signal_listener mk (payload_object sig) socket rooms = returned [])
  ∧ (∀ (payload : JoinRoom) (now : Z) (socket : Socket) (rooms : Rooms)
       (mk : option string → option string → ServerEvent) (sig : Signal),
      data_roomId (data socket) = None →
      (∀ ps, mkEmit (SocketEmit (socket_id socket)) (room_joined ps)
             ∉ (on_join_room payload now socket rooms).2) →
      signal_listener mk (payload_object sig)
        (on_join_room payload now socket rooms).1.1
        (on_join_room payload now socket rooms).1.2
      = returned []).
Proof.
  assert (∀ payload now socket rooms,
            (∀ ps, mkEmit (SocketEmit (socket_id socket)) (room_joined ps)
                   ∉ (on_join_room payload now socket rooms).2) →
            (on_join_room payload now socket rooms).1 = (socket, rooms))
    as Hsame.
  { intros payload now socket rooms Hno.
    destruct (truthy (join_roomId payload)) eqn:Hr;
      [destruct (truthy (join_userId payload)) eqn:Hu|].
    - apply truthy_Some in Hr as (r & Hr & Hr').
      apply truthy_Some in Hu as (u & Hu & Hu').
      rewrite (on_join_room_valid payload now socket rooms r u) in * by done.
      destruct (isFull r rooms); [done|]. exfalso.
      eapply Hno. simpl. apply list_elem_of_here.
    - by rewrite on_join_room_invalid by auto.
    - by rewrite on_join_room_invalid by auto. }
  assert (∀ socket rooms mk sig,
            data_roomId (data socket) = None → relay mk sig socket rooms = [])
    as Hdrop.
  { intros socket rooms mk sig Hdata. unfold relay. by rewrite Hdata. }
  split_and!.
  - intros payload now socket rooms Hno. simpl. f_equal.
    specialize (Hsame payload now socket rooms Hno).
    destruct (on_join_room payload now socket rooms) as [[s' r'] em].
    simpl in *. congruence.
  - intros socket rooms mk sig Hdata. simpl. f_equal. by apply Hdrop.
  - intros payload now socket rooms mk sig Hdata Hno. simpl. f_equal.
    rewrite (Hsame payload now socket rooms Hno). simpl. by apply Hdrop.
Qed.

Lemma refused_join_changes_nothing_and_cannot_relay_witness :
  join_room_listener
    (payload_object (mkJoinRoom (Some Scenario.room) (Some "u1") None)) 4
    Scenario.socketOfU1 Scenario.fullRoom
  = returned (Scenario.socketOfU1, Scenario.fullRoom,
              [mkEmit (SocketEmit "s1") room_full])
  ∧ signal_listener offer
      (payload_object (mkSignal (Some "u1") (Some "sdp") (Some "u5")))
      (Scenario.fresh "s5") Scenario.fullRoom
    = returned []
  ∧ signal_listener offer
      (payload_object (mkSignal (Some "u1") (Some "sdp") (Some "u5")))
      (on_join_room (mkJoinRoom (Some Scenario.room) (Some "u5") None) 4
         (Scenario.fresh "s5") Scenario.fullRoom).1.1
      (on_join_room (mkJoinRoom (Some Scenario.room) (Some "u5") None) 4
         (Scenario.fresh "s5") Scenario.fullRoom).1.2
    = returned [].
Proof.
  destruct refused_join_changes_nothing_and_cannot_relay
    as (Hjoin & Hdrop & Hboth).
  split_and!.
  - apply (Hjoin (mkJoinRoom (Some Scenario.room) (Some "u1") None) 4%Z
             Scenario.socketOfU1 Scenario.fullRoom).
    intros ps Hin. simpl in Hin.
    apply list_elem_of_singleton in Hin. discriminate.
  - apply Hdrop. reflexivity.
  - apply (Hboth (mkJoinRoom (Some Scenario.room) (Some "u5") None) 4%Z
             (Scenario.fresh "s5") Scenario.fullRoom).
    + reflexivity.
    + intros ps Hin. simpl in Hin.
      apply list_elem_of_singleton in Hin. discriminate.
Defined.

(** X11. After a successful join the newcomer can signal the members that
    were already in the room: for an offer, answer or candidate naming such
    a member as its target the server emits exactly one message, addressed
    with [io.to] to the socket id stored for that member, carrying the
    client's [fromUserId] and body. Which connections sit in the Socket.IO
    room of that name is not part of the statement. *)
Theorem join_then_relay_reaches_roommate
    (payload : JoinRoom) (now : Z) (socket : Socket) (rooms : Rooms)
    (r u t s : string) (b f : option string)
    (mk : option string → option string → ServerEvent) :
  join_roomId payload = Some r → r ≠ "" →
  join_userId payload = Some u → u ≠ "" →
  isFull r rooms = false →
  t ≠ u →
  getParticipantSocketId r t rooms = Some s →
  relay mk (mkSignal (Some t) b f)
    (on_join_room payload now socket rooms).1.1
    (on_join_room payload now socket rooms).1.2
  = [mkEmit (IoTo s) (mk f b)].
Proof.
  intros Hr Hr' Hu Hu' Hfull Htu Hs.
  rewrite (on_join_room_valid payload now socket rooms r u) by done.
  rewrite Hfull. simpl. apply (relay_joined mk r); [done..|].
  rewrite getParticipantSocketId_participantsOf in *.
  by rewrite participantsOf_add, decide_True, Hfull, get_set_ne.
Qed.

Lemma join_then_relay_reaches_roommate_witness :
  relay answer (mkSignal (Some "u1") (Some "sdp") (Some "u2"))
    (on_join_room (mkJoinRoom (Some Scenario.room) (Some "u2") None) 1
       (Scenario.fresh "s2") Scenario.soloRoom).1.1
    (on_join_room (mkJoinRoom (Some Scenario.room) (Some "u2") None) 1
       (Scenario.fresh "s2") Scenario.soloRoom).1.2
  = [mkEmit (IoTo "s1") (answer (Some "u2") (Some "sdp"))].
Proof.
  apply (join_then_relay_reaches_roommate
           (mkJoinRoom (Some Scenario.room) (Some "u2") None) 1
           (Scenario.fresh "s2") Scenario.soloRoom
           Scenario.room "u2" "u1" "s1");
    (reflexivity || discriminate).
Defined.

(** X12. The leave handler removes the named identity from the registry and
    notifies the room, but it leaves [socket.data] as it is: the connection
    that left can still have its offers, answers and candidates relayed to
    the members that remain. *)
Theorem leave_keeps_relaying_into_the_room
    (socket : Socket) (rooms : Rooms) (r u t s : string)
    (b f : option string)
    (mk : option string → option string → ServerEvent) :
  data_roomId (data socket) = Some r → r ≠ "" → u ≠ "" →
  t ≠ u →
  getParticipantSocketId r t rooms = Some s →
  let out := on_leave_room (mkLeaveRoom (Some r) (Some u)) socket rooms in
  out.1.2 = removeParticipant r u rooms
  ∧ out.2 = [mkEmit (SocketTo r (socket_id socket)) (user_left u)]
  ∧ data out.1.1 = data socket
  ∧ relay mk (mkSignal (Some t) b f) out.1.1 out.1.2
    = [mkEmit (IoTo s) (mk f b)].
Proof.
  intros Hr Hr' Hu' Htu Hs out. subst out. unfold on_leave_room. simpl.
  rewrite !bool_decide_eq_false_2 by done. simpl.
  split_and!; [done..|].
  apply (relay_joined mk r); [done..|].
  by rewrite getParticipantSocketId_remove_ne.
Qed.

Lemma leave_keeps_relaying_into_the_room_witness :
  let out := on_leave_room (mkLeaveRoom (Some Scenario.room) (Some "u1"))
               Scenario.socketOfU1 Scenario.duoRoom in
  out.1.2 = removeParticipant Scenario.room "u1" Scenario.duoRoom
  ∧ out.2 = [mkEmit (SocketTo Scenario.room "s1") (user_left "u1")]
  ∧ data out.1.1 = data Scenario.socketOfU1
  ∧ relay offer (mkSignal (Some "u2") (Some "sdp") (Some "u1"))
      out.1.1 out.1.2
    = [mkEmit (IoTo "s2") (offer (Some "u1") (Some "sdp"))].
Proof.
  apply (leave_keeps_relaying_into_the_room Scenario.socketOfU1
           Scenario.duoRoom Scenario.room "u1" "u2" "s2");
    (reflexivity || discriminate).
Defined.
End HandlerExtras.

(** ** More on the negotiation engine *)

Section EngineExtras.
Import JsMapFacts RoomManager Client Invariants.
Implicit Types (e : Engine) (rtc : WebRTC).

(** Unfolds one handler down to the tests it makes. *)
Ltac handler_cases :=
  unfold receive, handleUserJoined, createOffer, handleOffer, handleAnswer,
    handleIceCandidate, handleUserLeft, onicecandidate, ontrack,
    onconnectionstatechange, on_connect, on_disconnect, on_connect_error,
    on_room_joined, on_room_error, on_room_full, socket_on_user_joined,
    socket_on_user_left, sendOffer, sendAnswer, sendIceCandidate, record,
    createPeerConnection, JsMap.has;
  repeat (case_match; simplify_eq/=).

(** What one event may do to the engine. *)
Lemma receive_step rtc ev e :
  userId (receive rtc ev e) = userId e
  ∧ roomId (receive rtc ev e) = roomId e
  ∧ (emitted (receive rtc ev e) = emitted e
     ∨ ∃ m, emitted (receive rtc ev e) = emitted e ++ [m]
            ∧ sender m = userId e
            ∧ (isConnected e = true ∨ ev = in_connect)).
Proof.
  destruct ev; handler_cases; split_and!; try done; eauto 8.
Qed.

(** X13. Every message an engine emits names the engine's own identity as
    its sender, after any sequence of incoming events: the join request, and
    the [fromUserId] of each offer, answer and candidate. The engine's
    identity and room never change. *)
Theorem engine_signs_messages_with_own_identity
    (rtc : WebRTC) (evs : list Incoming) (e : Engine) :
  Forall (λ m, sender m = userId e) (emitted e) →
  userId (receiveAll rtc evs e) = userId e
  ∧ roomId (receiveAll rtc evs e) = roomId e
  ∧ Forall (λ m, sender m = userId e) (emitted (receiveAll rtc evs e)).
Proof.
  unfold receiveAll. revert e.
  induction evs as [|ev evs IH]; intros e He; [done|]. simpl.
  destruct (receive_step rtc ev e) as (Hu & Hr & Hem).
  rewrite <- Hu, <- Hr. apply IH. rewrite Hu.
  destruct Hem as [->|(m & -> & Hm & _)]; [done|].
  apply Forall_app. split; [done|]. by apply Forall_singleton.
Qed.

Lemma engine_signs_messages_with_own_identity_witness :
  let e := receiveAll Scenario.browser
             [in_connect; in_user_joined "u2" "User u2";
              in_offer "u3" "sdp"; in_icecandidate "u2" (Some "cand")]
             (Scenario.engine "u1") in
  userId e = "u1"
  ∧ roomId e = Scenario.room
  ∧ Forall (λ m, sender m = "u1") (emitted e)
  ∧ length (emitted e) = 4.
Proof.
  intros e.
  destruct (engine_signs_messages_with_own_identity Scenario.browser
              [in_connect; in_user_joined "u2" "User u2";
               in_offer "u3" "sdp"; in_icecandidate "u2" (Some "cand")]
              (Scenario.engine "u1") (Forall_nil_2 _)) as (Hu & Hr & Hall).
  split_and!; [exact Hu | exact Hr | exact Hall | reflexivity].
Defined.

Lemma receive_disconnected rtc ev e :
  isConnected e = false → ev ≠ in_connect →
  isConnected (receive rtc ev e) = false
  ∧ emitted (receive rtc ev e) = emitted e.
Proof.
  intros Hc Hev. split.
  - destruct ev; handler_cases; done.
  - destruct (receive_step rtc ev e) as (_ & _ & [Hem|(m & _ & _ & H')]);
      [done|]. destruct H'; congruence.
Qed.

(** X14. An engine that is not connected emits nothing: as long as no
    [connect] event arrives, whatever else arrives (joins, offers, answers,
    candidates from the browser or the room) is handled without a message
    going out. *)
Theorem disconnected_engine_is_silent
    (rtc : WebRTC) (evs : list Incoming) (e : Engine) :
  isConnected e = false →
  Forall (λ ev, ev ≠ in_connect) evs →
  emitted (receiveAll rtc evs e) = emitted e
  ∧ isConnected (receiveAll rtc evs e) = false.
Proof.
  unfold receiveAll. intros Hc Hevs. revert e Hc.
  induction Hevs as [|ev evs Hev _ IH]; intros e Hc; [done|]. simpl.
  destruct (receive_disconnected rtc ev e Hc Hev) as [Hc' Hem].
  rewrite <- Hem. by apply IH.
Qed.

Lemma disconnected_engine_is_silent_witness :
  let e := receive Scenario.browser in_disconnect (Scenario.engine "u1") in
  emitted (receiveAll Scenario.browser
             [in_user_joined "u2" "User u2"; in_offer "u3" "sdp";
              in_icecandidate "u2" (Some "cand")] e)
  = emitted e
  ∧ isConnected (receiveAll Scenario.browser
                   [in_user_joined "u2" "User u2"; in_offer "u3" "sdp";
                    in_icecandidate "u2" (Some "cand")] e) = false.
Proof.
  intros e.
  apply (disconnected_engine_is_silent Scenario.browser
           [in_user_joined "u2" "User u2"; in_offer "u3" "sdp";
            in_icecandidate "u2" (Some "cand")] e).
  - reflexivity.
  - repeat constructor; discriminate.
Defined.

Lemma record_keys t pc e :
  JsMap.keys (peerConnections (record t pc e)) = JsMap.keys (peerConnections e).
Proof.
  unfold record, JsMap.has.
  destruct (JsMap.get t (peerConnections e)) eqn:Hg; [|done]. simpl.
  rewrite keys_set. unfold JsMap.has. by rewrite Hg.
Qed.

(** X15. An answer or a candidate never creates a connection and never makes
    the engine emit: the set of identities with a connection, the number of
    connections constructed, the outbox and the participant list are as
    before, and when the sender has no connection the engine is unchanged
    altogether. *)
Theorem answer_and_candidate_create_nothing
    (rtc : WebRTC) (from body : string) (e : Engine) :
  ∀ ev, ev = in_answer from body ∨ ev = in_ice_candidate from body →
    JsMap.keys (peerConnections (receive rtc ev e))
      = JsMap.keys (peerConnections e)
    ∧ constructed (receive rtc ev e) = constructed e
    ∧ emitted (receive rtc ev e) = emitted e
    ∧ participants (receive rtc ev e) = participants e
    ∧ (JsMap.get from (peerConnections e) = None → receive rtc ev e = e).
Proof.
  intros ev [-> | ->]; simpl; unfold handleAnswer, handleIceCandidate;
    (destruct (JsMap.get from (peerConnections e)) as [pc|] eqn:Hg;
     [|done]);
    (split_and!; [apply record_keys | | apply record_emitted | | done]);
    unfold record; by destruct (JsMap.has _ _).
Qed.

Lemma answer_and_candidate_create_nothing_witness :
  let e := Scenario.engine "u1" in
  JsMap.keys (peerConnections
                (receive Scenario.browser (in_answer "u2" "sdp") e))
    = JsMap.keys (peerConnections e)
  ∧ constructed (receive Scenario.browser (in_answer "u2" "sdp") e)
    = constructed e
  ∧ emitted (receive Scenario.browser (in_answer "u2" "sdp") e) = emitted e
  ∧ participants (receive Scenario.browser (in_answer "u2" "sdp") e)
    = participants e
  ∧ (JsMap.get "u2" (peerConnections e) = None →
     receive Scenario.browser (in_answer "u2" "sdp") e = e).
Proof.
  intros e.
  apply (answer_and_candidate_create_nothing Scenario.browser "u2" "sdp" e).
  left. reflexivity.
Defined.

Lemma createPeerConnection_get t e :
  JsMap.get t (peerConnections (createPeerConnection t e).2)
  = Some (createPeerConnection t e).1.
Proof.
  unfold createPeerConnection.
  destruct (JsMap.get t (peerConnections e)) eqn:Hg; simpl; [done|].
  apply get_set_eq.
Qed.

Lemma record_get t pc e :
  is_Some (JsMap.get t (peerConnections e)) →
  JsMap.get t (peerConnections (record t pc e)) = Some pc.
Proof.
  intros [pc' Hg]. unfold record, JsMap.has. rewrite Hg. simpl.
  apply get_set_eq.
Qed.

(** X16. An incoming offer always leaves the engine with a connection for
    the sender (created on demand, reused when there is one) and is answered
    at most once, to the sender and under the engine's own identity; the
    engine never replies to an offer with an offer. With a connected socket
    and a browser that accepts every call the answer is sent. *)
Theorem offer_is_answered_to_its_sender
    (rtc : WebRTC) (from sdp : string) (e : Engine) :
  let e' := receive rtc (in_offer from sdp) e in
  is_Some (JsMap.get from (peerConnections e'))
  ∧ (is_Some (JsMap.get from (peerConnections e)) →
     constructed e' = constructed e)
  ∧ (emitted e' = emitted e
     ∨ ∃ ans, emitted e' = emitted e ++ [answer from ans (userId e)])
  ∧ (isConnected e = true →
     (∀ pc c, accepts rtc pc c = true) →
     ∀ ans, (∀ pc, createAnswer_result rtc pc = Some ans) →
     emitted e' = emitted e ++ [answer from ans (userId e)]).
Proof.
  simpl. split_and!.
  - unfold handleOffer.
    pose proof (createPeerConnection_get from e) as Hg.
    destruct (createPeerConnection from e) as [pc e1]. simpl in Hg.
    assert (is_Some (JsMap.get from (peerConnections e1))) as Hs by eauto.
    repeat case_match;
      rewrite ?sendAnswer_peerConnections, record_get; eauto.
  - intros [pc Hpc]. handler_cases; done.
  - handler_cases; eauto.
  - intros Hc Hacc ans Hans. unfold handleOffer.
    pose proof (createPeerConnection_emitted from e) as Hem.
    assert (userId (createPeerConnection from e).2 = userId e
            ∧ isConnected (createPeerConnection from e).2 = isConnected e)
      as [Hid Hic].
    { unfold createPeerConnection.
      by destruct (JsMap.get from (peerConnections e)). }
    destruct (createPeerConnection from e) as [pc e1]. simpl in *.
    rewrite Hacc, Hans, Hacc. unfold sendAnswer, record.
    destruct (JsMap.has from (peerConnections e1)); simpl;
      rewrite Hic, Hc; simpl; by rewrite Hem, Hid.
Qed.

Lemma offer_is_answered_to_its_sender_witness :
  let e := Scenario.engine "u2" in
  let e' := receive Scenario.browser (in_offer "u1" "offer-sdp") e in
  is_Some (JsMap.get "u1" (peerConnections e'))
  ∧ emitted e' = emitted e ++ [answer "u1" "answer-sdp" "u2"].
Proof.
  intros e e'.
  destruct (offer_is_answered_to_its_sender Scenario.browser "u1"
              "offer-sdp" e) as (Hconn & _ & _ & Hans).
  split; [exact Hconn|].
  apply Hans; [reflexivity | intros; reflexivity | intros; reflexivity].
Defined.

Lemma createOffer_new_connection rtc b e :
  JsMap.get b (peerConnections e) = None →
  ∃ pc, peerConnections (createOffer rtc b e)
        = peerConnections e ++ [(b, pc)].
Proof.
  intros Hnone. unfold createOffer, createPeerConnection. rewrite Hnone.
  unfold record, JsMap.has. simpl. rewrite get_set_eq.
  repeat case_match; rewrite ?sendOffer_peerConnections; simpl;
    rewrite set_set, set_absent by done; eauto.
Qed.

Lemma createOffer_rest rtc b e :
  participants (createOffer rtc b e) = participants e
  ∧ remoteStreams (createOffer rtc b e) = remoteStreams e
  ∧ connectionStates (createOffer rtc b e) = connectionStates e
  ∧ isConnected (createOffer rtc b e) = isConnected e.
Proof. handler_cases; done. Qed.

Lemma filter_ne_absent b (ps : list ParticipantInfo) :
  b ∉ ids ps → filter (λ p, info_odId p ≠ b) ps = ps.
Proof.
  unfold ids. induction ps as [|q ps IH]; [done|].
  rewrite fmap_cons, not_elem_of_cons, filter_cons.
  intros [Hq Hps]. rewrite decide_True by congruence. by rewrite IH.
Qed.

Lemma find_absent b (ps : list ParticipantInfo) :
  b ∉ ids ps → find (λ p, bool_decide (info_odId p = b)) ps = None.
Proof.
  unfold ids. induction ps as [|q ps IH]; [done|].
  rewrite fmap_cons, not_elem_of_cons. intros [Hq Hps]. simpl.
  rewrite bool_decide_eq_false_2 by congruence. by apply IH.
Qed.

(** X17. A member that joins and then leaves is forgotten without trace in
    the engine's tables: when the identity was unknown before, after its
    [user-joined] and [user-left] the participant list, the connection map,
    the remote streams and the connection states are what they were. *)
Theorem user_left_undoes_user_joined
    (rtc : WebRTC) (b name : string) (e : Engine) :
  b ∉ ids (participants e) →
  JsMap.get b (peerConnections e) = None →
  JsMap.get b (remoteStreams e) = None →
  JsMap.get b (connectionStates e) = None →
  let e' := receive rtc (in_user_left b)
              (receive rtc (in_user_joined b name) e) in
  participants e' = participants e
  ∧ peerConnections e' = peerConnections e
  ∧ remoteStreams e' = remoteStreams e
  ∧ connectionStates e' = connectionStates e.
Proof.
  intros Hb Hpc Hrs Hcs. simpl. unfold handleUserJoined.
  set (e1 := socket_on_user_joined b name e).
  assert (participants e1
          = participants e ++ [{| info_odId := b; info_name := name |}]
          ∧ peerConnections e1 = peerConnections e
          ∧ remoteStreams e1 = remoteStreams e
          ∧ connectionStates e1 = connectionStates e)
    as (Hp1 & Hpc1 & Hrs1 & Hcs1).
  { subst e1. unfold socket_on_user_joined. by rewrite find_absent. }
  destruct (createOffer_rest rtc b e1) as (Hp2 & Hrs2 & Hcs2 & _).
  destruct (createOffer_new_connection rtc b e1) as [pc Hpc2];
    [by rewrite Hpc1|].
  set (e2 := createOffer rtc b e1) in *.
  unfold handleUserLeft, socket_on_user_left. simpl.
  rewrite Hpc2, Hpc1.
  assert (JsMap.get b (peerConnections e ++ [(b, pc)]) = Some pc) as ->.
  { rewrite <- set_absent by done. apply get_set_eq. }
  simpl. unfold socket_on_user_left. simpl.
  rewrite ?Hpc2, ?Hpc1, ?Hrs2, ?Hrs1, ?Hcs2, ?Hcs1, ?Hp2, ?Hp1.
  split_and!.
  - rewrite filter_app, filter_cons, decide_False by (simpl; tauto).
    rewrite filter_nil, app_nil_r. by apply filter_ne_absent.
  - rewrite <- set_absent by done. by apply delete_set_absent.
  - by apply delete_absent.
  - by apply delete_absent.
Qed.

Lemma user_left_undoes_user_joined_witness :
  let e := receive Scenario.browser (in_user_joined "u2" "User u2")
             (Scenario.engine "u1") in
  let e' := receive Scenario.browser (in_user_left "u3")
              (receive Scenario.browser (in_user_joined "u3" "User u3") e) in
  participants e' = participants e
  ∧ peerConnections e' = peerConnections e
  ∧ remoteStreams e' = remoteStreams e
  ∧ connectionStates e' = connectionStates e.
Proof.
  intros e.
  apply (user_left_undoes_user_joined Scenario.browser "u3" "User u3" e);
    [|reflexivity..].
  intros Hin. apply list_elem_of_singleton in Hin. discriminate.
Defined.

(** X18. After [user-left] for an identity the engine holds nothing for it:
    it is not in the participant list and has no connection, remote stream
    or connection state; what the engine holds for any other identity, and
    its outbox, are untouched. *)
Theorem user_left_forgets_the_identity
    (rtc : WebRTC) (b : string) (e : Engine) :
  let e' := receive rtc (in_user_left b) e in
  (b ∉ ids (participants e'))
  ∧ JsMap.get b (peerConnections e') = None
  ∧ JsMap.get b (remoteStreams e') = None
  ∧ JsMap.get b (connectionStates e') = None
  ∧ emitted e' = emitted e
  ∧ ∀ k, k ≠ b →
      (k ∈ ids (participants e') ↔ k ∈ ids (participants e))
      ∧ JsMap.get k (peerConnections e') = JsMap.get k (peerConnections e)
      ∧ JsMap.get k (remoteStreams e') = JsMap.get k (remoteStreams e)
      ∧ JsMap.get k (connectionStates e')
        = JsMap.get k (connectionStates e).
Proof.
  simpl. unfold handleUserLeft, socket_on_user_left. simpl.
  assert (∀ k, k ∈ ids (filter (λ p, info_odId p ≠ b) (participants e))
               ↔ k ∈ ids (participants e) ∧ k ≠ b) as Hids.
  { intros k. unfold ids. rewrite !list_elem_of_fmap. split.
    - intros (q & -> & [Hq Hin]%list_elem_of_filter). eauto.
    - intros [(q & -> & Hin) Hne]. exists q. split; [done|].
      by apply list_elem_of_filter. }
  destruct (JsMap.get b (peerConnections e)) as [pc|] eqn:Hg; simpl.
  - split_and!; [|apply get_delete_eq..|done|].
    + rewrite Hids. tauto.
    + intros k Hk. rewrite Hids, !get_delete_ne by done. tauto.
  - split_and!; [|done|apply get_delete_eq..|done|].
    + rewrite Hids. tauto.
    + intros k Hk. rewrite Hids, !get_delete_ne by done. tauto.
Qed.

Lemma user_left_forgets_the_identity_witness :
  let e := receiveAll Scenario.browser
             [in_room_joined [mkInfo "u2" "User u2"; mkInfo "u3" "User u3"];
              in_offer "u2" "sdp2"; in_offer "u3" "sdp3";
              in_track "u2" "stream2"]
             (Scenario.engine "u1") in
  let e' := receive Scenario.browser (in_user_left "u2") e in
  JsMap.get "u2" (peerConnections e') = None
  ∧ JsMap.get "u2" (remoteStreams e') = None
  ∧ JsMap.get "u3" (peerConnections e') = JsMap.get "u3" (peerConnections e)
  ∧ ids (participants e') = ["u3"].
Proof.
  intros e e'.
  destruct (user_left_forgets_the_identity Scenario.browser "u2" e)
    as (_ & Hpc & Hrs & _ & _ & Hother).
  destruct (Hother "u3") as (_ & Hpc3 & _); [discriminate|].
  split_and!; [exact Hpc | exact Hrs | exact Hpc3 | reflexivity].
Defined.

Lemma find_None_absent b (ps : list ParticipantInfo) :
  find (λ p, bool_decide (info_odId p = b)) ps = None → b ∉ ids ps.
Proof.
  unfold ids. induction ps as [|q ps IH]; simpl; [intros _; apply not_elem_of_nil|].
  case_bool_decide as Hq; [done|].
  intros Hf. apply not_elem_of_cons. split; [congruence | by apply IH].
Qed.

Lemma ids_filter_NoDup (P : ParticipantInfo → Prop) `{!∀ x, Decision (P x)}
    (ps : list ParticipantInfo) :
  NoDup (ids ps) → NoDup (ids (filter P ps)).
Proof.
  intros Hnd. eapply sublist_NoDup; [done|].
  apply fmap_sublist, sublist_filter.
Qed.

Lemma receive_distinct rtc ev e :
  NoDup (ids (participants e)) → snapshotDistinct ev →
  NoDup (ids (participants (receive rtc ev e))).
Proof.
  intros Hnd Hev.
  destruct ev as [| | |msg| |from stream|to c|from st
                  |ps|odId name|odId|from sdp|from sdp|from c].
  1-8, 12-14: solve [handler_cases; done].
  - simpl in *. unfold on_room_joined. simpl. by apply ids_filter_NoDup.
  - simpl. unfold handleUserJoined.
    destruct (createOffer_rest rtc odId (socket_on_user_joined odId name e))
      as (-> & _).
    unfold socket_on_user_joined.
    destruct (find _ _) eqn:Hf; [done|]. simpl.
    unfold ids. rewrite fmap_app. apply NoDup_app. split_and!; [done| |].
    + intros x Hx ->%list_elem_of_singleton.
      by apply find_None_absent in Hf.
    + apply NoDup_singleton.
  - simpl. unfold handleUserLeft, socket_on_user_left.
    destruct (JsMap.get odId _); simpl; by apply ids_filter_NoDup.
Qed.

(** X19. The participant list an engine keeps never names an identity twice:
    a [user-joined] for an identity already listed is ignored, and the list
    stays free of repetitions through any sequence of events, provided the
    [room-joined] snapshots it is given have none. *)
Theorem participant_list_stays_distinct
    (rtc : WebRTC) (evs : list Incoming) (e : Engine) :
  NoDup (ids (participants e)) →
  Forall snapshotDistinct evs →
  NoDup (ids (participants (receiveAll rtc evs e))).
Proof.
  unfold receiveAll. intros Hnd Hevs. revert e Hnd.
  induction Hevs as [|ev evs Hev _ IH]; intros e Hnd; [done|]. simpl.
  by apply IH, receive_distinct.
Qed.

Lemma participant_list_stays_distinct_witness :
  let e := receiveAll Scenario.browser
             [in_room_joined [mkInfo "u1" "User u1"; mkInfo "u2" "User u2"];
              in_user_joined "u3" "User u3"; in_user_joined "u2" "User u2";
              in_user_left "u4"; in_user_joined "u3" "Cy"]
             (Scenario.engine "u1") in
  NoDup (ids (participants e))
  ∧ ids (participants e) = ["u2"; "u3"].
Proof.
  intros e. split; [|reflexivity].
  apply (participant_list_stays_distinct Scenario.browser _
           (Scenario.engine "u1")).
  - apply NoDup_nil_2.
  - repeat (apply Forall_cons; split); [|exact I..|apply Forall_nil_2].
    simpl. apply NoDup_cons. split; [|apply NoDup_singleton].
    intros Hin. apply list_elem_of_singleton in Hin. discriminate.
Defined.
End EngineExtras.

(** ** The video filters *)

Section Filters.
Import VideoFilters.

Lemma FILTERS_keys :
  JsMap.keys FILTERS
  = ["none"; "grayscale"; "sepia"; "blur"; "brightness"; "contrast"; "warm";
     "cool"; "vintage"].
Proof. reflexivity. Qed.

Lemma FILTERS_wf : JsMap.wf FILTERS.
Proof.
  unfold JsMap.wf. rewrite FILTERS_keys.
  by apply (bool_decide_unpack _).
Qed.

Lemma preset_cases k p :
  JsMap.get k FILTERS = Some p →
  (k = "none" ∧ style p = None) ∨ (k ≠ "none" ∧ style p ≠ None).
Proof.
  unfold FILTERS. simpl.
  repeat (case_decide; [subst k; intros [= <-]; simpl; naive_solver|]).
  done.
Qed.

(** X20. Every filter the panel offers can be selected: the offered keys are
    the nine presets in the order of the table, without repetition, and
    [setFilter] with an offered key makes it the current filter, whose style
    is then the style of that preset. *)
Theorem offered_filters_can_be_selected
    (inherited : string → bool) (current : string) (a : Available) :
  a ∈ availableFilters →
  NoDup (key <$> availableFilters)
  ∧ length availableFilters = 9
  ∧ setFilter inherited (key a) current = key a
  ∧ ∃ p, JsMap.get (key a) FILTERS = Some p
         ∧ available_name a = preset_name p
         ∧ filterStyle inherited (setFilter inherited (key a) current)
           = style p.
Proof.
  intros Ha.
  unfold availableFilters in Ha.
  apply list_elem_of_fmap in Ha as ([k p] & -> & Hin).
  apply elem_get in Hin; [|apply FILTERS_wf]. simpl.
  split_and!.
  - exact FILTERS_wf.
  - done.
  - unfold setFilter, property. by rewrite Hin.
  - exists p. unfold filterStyle, setFilter, property.
    by rewrite Hin, Hin.
Qed.

Lemma offered_filters_can_be_selected_witness :
  setFilter standardInherited "sepia" "none" = "sepia"
  ∧ ∃ p, JsMap.get "sepia" FILTERS = Some p
         ∧ "Sepia" = preset_name p
         ∧ filterStyle standardInherited
             (setFilter standardInherited "sepia" "none") = style p.
Proof.
  destruct (offered_filters_can_be_selected standardInherited "none"
              (mkAvailable "sepia" "Sepia"
                 "linear-gradient(135deg, #d4a574 0%, #8b6914 100%)"))
    as (_ & _ & Hset & Hstyle).
  - apply list_elem_of_further, list_elem_of_further, list_elem_of_here.
  - split; [exact Hset | exact Hstyle].
Defined.

Lemma setFilter_preset inherited k current :
  inherited k = false →
  is_Some (JsMap.get current FILTERS) →
  is_Some (JsMap.get (setFilter inherited k current) FILTERS).
Proof.
  intros Hk Hcur. unfold setFilter, property.
  destruct (JsMap.get k FILTERS) eqn:Hg; [by rewrite Hg|].
  by rewrite Hk.
Qed.

(** X21. As long as [setFilter] is not given a name that a plain object
    inherits, the current filter is always one of the presets, a key that is
    not a preset is ignored, and the active-filter indicator agrees with the
    style: [hasActiveFilter] is true exactly when the current style is not
    empty. *)
Theorem active_filter_indicator_agrees_with_style
    (inherited : string → bool) (keys : list string) :
  Forall (λ k, inherited k = false) keys →
  selectAll inherited keys ∈ JsMap.keys FILTERS
  ∧ (hasActiveFilter (selectAll inherited keys) = true
     ↔ filterStyle inherited (selectAll inherited keys) ≠ None)
  ∧ ∀ k, inherited k = false → k ∉ JsMap.keys FILTERS →
         selectAll inherited (keys ++ [k]) = selectAll inherited keys.
Proof.
  intros Hkeys.
  assert (is_Some (JsMap.get (selectAll inherited keys) FILTERS)) as [p Hp].
  { unfold selectAll.
    assert (is_Some (JsMap.get "none" FILTERS)) as Hstart by (simpl; eauto).
    revert Hstart. generalize "none".
    induction Hkeys as [|k keys Hk _ IH]; intros c Hc; [done|]. simpl.
    by apply IH, setFilter_preset. }
  split_and!.
  - apply JsMapFacts.get_Some_keys. eauto.
  - unfold filterStyle, property, hasActiveFilter. rewrite Hp.
    destruct (preset_cases _ _ Hp) as [[-> ->]|[Hne Hst]].
    + simpl. split; [done|]. intros []. done.
    + rewrite bool_decide_eq_false_2 by done. done.
  - intros k Hk Hnot. unfold selectAll. rewrite foldl_app. simpl.
    unfold setFilter, property.
    apply JsMapFacts.get_None_keys in Hnot. by rewrite Hnot, Hk.
Qed.

Lemma active_filter_indicator_agrees_with_style_witness :
  selectAll standardInherited ["sepia"; "rainbow"; "cool"; ""]
    ∈ JsMap.keys FILTERS
  ∧ (hasActiveFilter
       (selectAll standardInherited ["sepia"; "rainbow"; "cool"; ""]) = true
     ↔ filterStyle standardInherited
         (selectAll standardInherited ["sepia"; "rainbow"; "cool"; ""])
       ≠ None)
  ∧ selectAll standardInherited ["sepia"; "rainbow"; "cool"; ""] = "cool".
Proof.
  destruct (active_filter_indicator_agrees_with_style standardInherited
              ["sepia"; "rainbow"; "cool"; ""]) as (Hin & Hiff & _).
  - repeat (apply Forall_cons; split); [reflexivity..|apply Forall_nil_2].
  - split_and!; [exact Hin | exact Hiff | reflexivity].
Defined.

(** Without the proviso the indicator can disagree: ["constructor"] is
    accepted by [setFilter], and the indicator is lit over an empty style. *)
Example inherited_name_is_accepted_as_filter :
  selectAll standardInherited ["sepia"; "constructor"] = "constructor"
  ∧ hasActiveFilter "constructor" = true
  ∧ filterStyle standardInherited "constructor" = None.
Proof. split_and!; reflexivity. Qed.
End Filters.
